(** * Server-side client identity: enrollment, public key resolution and
      the negative lookup cache of velociraptor's crypto/server/manager.go

    The development embeds [ServerCryptoManager.AddCertificateRequest],
    [serverPublicKeyResolver] ([GetPublicKey], [SetPublicKey],
    [DeleteSubject]), [NewServerPublicKeyResolver] and the client-deletion
    callback installed by [NewServerCryptoManager].  Calls are modelled by
    explicit state passing over a [World]: the negative cache (a
    [ttlcache.Cache]), the datastore and the clock. *)

From Stdlib Require Import ZArith Lia Ascii String.
From stdpp Require Import base gmap strings list.

Open Scope Z_scope.

(** ** Go machine integers and durations *)

(** Two's complement wrap-around of an int64 (Go's [time.Duration]). *)
Definition wrap64 (z : Z) : Z :=
  (z + 2 ^ 63) mod 2 ^ 64 - 2 ^ 63.

(** [time.Second], in nanoseconds. *)
Definition Second : Z := 1000000000.

(** ** The [ttlcache.Cache] used as negative LRU (Velocidex/ttlcache v2)

    The library keeps per item its TTL and its expiry instant.  An item
    with a non-positive TTL never expires; an item with a positive TTL is
    expired once its expiry instant lies strictly before the current time.
    [Get] hits only live items and, unless [SkipTTLExtensionOnHit(true)]
    was called, renews the expiry of the item it hits.  [Set] stores an
    item with the cache's global TTL; [Remove] deletes the item and
    reports a (here ignored) error when it is absent.  [NewCache] starts
    with TTL 0 and extension on hit enabled.  The stored value is always
    [true] in this file, so items carry no payload. *)
Module TTLCache.

Record item := mk_item {
  item_ttl : Z;
  expire_at : Z
}.

Record Cache := mk_cache {
  ttl : Z;
  skip_ttl_extension : bool;
  items : gmap string item
}.

Definition NewCache : Cache := mk_cache 0 false ∅.

Definition SetTTL (d : Z) (c : Cache) : Cache :=
  mk_cache d c.(skip_ttl_extension) c.(items).

Definition SkipTTLExtensionOnHit (b : bool) (c : Cache) : Cache :=
  mk_cache c.(ttl) b c.(items).

Definition expired (now : Z) (it : item) : bool :=
  if it.(item_ttl) <=? 0 then false else it.(expire_at) <? now.

(** [item.touch]: a fresh expiry instant for items with a positive TTL. *)
Definition touch (now : Z) (it : item) : item :=
  if 0 <? it.(item_ttl) then mk_item it.(item_ttl) (now + it.(item_ttl))
  else it.

Definition new_item (now d : Z) : item := touch now (mk_item d 0).

(** [Get]: [true] on a hit (error = nil), [false] on [ErrNotFound]. *)
Definition Get (key : string) (now : Z) (c : Cache) : bool * Cache :=
  match c.(items) !! key with
  | Some it =>
      if expired now it then (false, c)
      else if c.(skip_ttl_extension) then (true, c)
      else (true, mk_cache c.(ttl) c.(skip_ttl_extension)
                     (<[key := touch now it]> c.(items)))
  | None => (false, c)
  end.

Definition Set_ (key : string) (now : Z) (c : Cache) : Cache :=
  mk_cache c.(ttl) c.(skip_ttl_extension)
    (<[key := new_item now c.(ttl)]> c.(items)).

Definition Remove (key : string) (c : Cache) : Cache :=
  mk_cache c.(ttl) c.(skip_ttl_extension) (delete key c.(items)).

(** Whether [Get key] would hit at [now]. *)
Definition live (key : string) (now : Z) (c : Cache) : bool :=
  match c.(items) !! key with
  | Some it => negb (expired now it)
  | None => false
  end.

End TTLCache.

(** ** Configuration, errors and the datastore *)

(** [config_proto.Defaults]: only the field read by the resolver. *)
Record DefaultsCfg := mk_defaults {
  UnauthenticatedLruTimeoutSec : Z
}.

(** [config_proto.Config]: [Defaults] is a nullable message pointer. *)
Record Config := mk_config {
  Defaults : option DefaultsCfg;
  OrgId : string
}.

(** The errors the code returns.  [ErrParseCSR] is whatever
    [ParseX509CSRFromPemStr] reports, [ErrNotRSA] is
    "Not RSA algorithm", [ErrInvalidCSR] is "Invalid CSR", [ErrGetDB] is the
    error of [datastore.GetDB] and [ErrSetSubject] the error of
    [SetSubjectWithCompletion]. *)
Inductive GoError :=
| ErrParseCSR
| ErrNotRSA
| ErrInvalidCSR
| ErrGetDB
| ErrSetSubject.

(** [crypto_proto.PublicKey], the record persisted per client. *)
Record PublicKeyRecord := mk_record {
  Pem : string;
  EnrollTime : Z
}.

(** The datastore seen by this file.  [db_ok] says whether
    [datastore.GetDB] returns a handle; [read_ok] and [write_ok] whether
    the backend's reads and writes go through (an I/O failure otherwise);
    [subjects] are the persisted records by path; [reads] counts the
    [GetSubject] calls.  A read of an absent path fails, a failed write
    changes nothing. *)
Record DataStore := mk_store {
  db_ok : bool;
  read_ok : bool;
  write_ok : bool;
  subjects : gmap string PublicKeyRecord;
  reads : nat
}.

Definition GetSubject (path : string) (st : DataStore)
  : option PublicKeyRecord * DataStore :=
  let st' := mk_store st.(db_ok) st.(read_ok) st.(write_ok) st.(subjects)
               (S st.(reads)) in
  if st.(read_ok) then (st.(subjects) !! path, st') else (None, st').

Definition SetSubjectWithCompletion (path : string) (r : PublicKeyRecord)
  (st : DataStore) : option GoError * DataStore :=
  if st.(write_ok) then
    (None, mk_store st.(db_ok) st.(read_ok) st.(write_ok)
             (<[path := r]> st.(subjects)) st.(reads))
  else (Some ErrSetSubject, st).

(** Everything the resolver and the manager act on: the negative cache
    ([negative_lru]), the datastore and [time.Now()] in nanoseconds. *)
Record World := mk_world {
  negative_lru : TTLCache.Cache;
  store : DataStore;
  now : Z
}.

Definition with_cache (c : TTLCache.Cache) (w : World) : World :=
  mk_world c w.(store) w.(now).

Definition with_store (st : DataStore) (w : World) : World :=
  mk_world w.(negative_lru) st w.(now).

(** ** [NewServerPublicKeyResolver]

    The resolver only holds its negative cache, so constructing it yields
    that cache.  The goroutine closing the cache on context cancellation
    is not modelled; note that the early return for a negative setting
    skips both [SetTTL] and [SkipTTLExtensionOnHit]. *)
Definition NewServerPublicKeyResolver (config_obj : Config) : TTLCache.Cache :=
  let result := TTLCache.NewCache in
  let timeout := 10 * Second in
  let finish (timeout : Z) :=
    TTLCache.SkipTTLExtensionOnHit true (TTLCache.SetTTL timeout result) in
  match config_obj.(Defaults) with
  | None => finish timeout
  | Some d =>
      if d.(UnauthenticatedLruTimeoutSec) <? 0 then result
      else if 0 <? d.(UnauthenticatedLruTimeoutSec) then
        finish (wrap64 (d.(UnauthenticatedLruTimeoutSec) * Second))
      else finish timeout
  end.

(** [serverPublicKeyResolver.DeleteSubject]. *)
Definition DeleteSubject (client_id : string) (w : World) : World :=
  with_cache (TTLCache.Remove client_id w.(negative_lru)) w.

(** ** The client-deletion callback of [NewServerCryptoManager] *)

(** A value of an [ordereddict.Dict] row.  [VString] stands for every value
    the library's [to_string] accepts (Go strings and byte slices); any
    other value is [VOther]. *)
Inductive Value :=
| VString (s : string)
| VOther.

(** An [*ordereddict.Dict]: its keys in insertion order, each once. *)
Definition Dict := list (string * Value).

Fixpoint Dict_Get (d : Dict) (key : string) : option Value :=
  match d with
  | [] => None
  | (k, v) :: d' => if String.eqb k key then Some v else Dict_Get d' key
  end.

(** [Dict.GetString]: present only when the key is there with a string
    value. *)
Definition Dict_GetString (d : Dict) (key : string) : option string :=
  match Dict_Get d key with
  | Some (VString s) => Some s
  | _ => None
  end.

(** Modelled from the spec: [client.CryptoManager.DeleteSubject], the method
    the callback invokes on the manager, lives in crypto/client, which is
    not part of the sources.  The spec states that the listener calls the
    resolver's eviction ([IdentityResolver.Evict], i.e. the resolver's
    [DeleteSubject]) for the identifier. *)
Definition ServerCryptoManager_DeleteSubject (client_id : string) (w : World)
  : World :=
  DeleteSubject client_id w.

(** The callback passed to [journal.WatchQueueWithCB] for
    "Server.Internal.ClientDelete"; the logging is not modelled.  It returns
    the callback's error and the new world. *)
Definition ClientDeleteCallback (row : Dict) (w : World) : option GoError * World :=
  match Dict_GetString row "ClientId" with
  | Some client_id => (None, ServerCryptoManager_DeleteSubject client_id w)
  | None => (None, w)
  end.

(** ** Parsed certificate signing requests *)

(** The public key of a parsed [x509.CertificateRequest], over the type of
    RSA public keys.  The x509 parser sets [PublicKeyAlgorithm] to
    [x509.RSA] exactly when the key it returns is an [*rsa.PublicKey]; the
    constructor carries both. *)
Inductive CsrPublicKey (PublicKey : Type) :=
| RSAPublicKey (k : PublicKey)
| DSAPublicKey
| ECDSAPublicKey
| Ed25519PublicKey
| UnknownPublicKey.

Arguments RSAPublicKey {PublicKey} k.
Arguments DSAPublicKey {PublicKey}.
Arguments ECDSAPublicKey {PublicKey}.
Arguments Ed25519PublicKey {PublicKey}.
Arguments UnknownPublicKey {PublicKey}.

Inductive PublicKeyAlgorithm :=
| UnknownPublicKeyAlgorithm | RSA | DSA | ECDSA | Ed25519.

Record CertificateRequest (PublicKey : Type) := mk_csr {
  CsrKey : CsrPublicKey PublicKey;
  CommonName : string
}.

Arguments mk_csr {PublicKey} _ _.
Arguments CsrKey {PublicKey} _.
Arguments CommonName {PublicKey} _.

Definition PublicKeyAlgorithmOf {PublicKey} (csr : CertificateRequest PublicKey)
  : PublicKeyAlgorithm :=
  match csr.(CsrKey) with
  | RSAPublicKey _ => RSA
  | DSAPublicKey => DSA
  | ECDSAPublicKey => ECDSA
  | Ed25519PublicKey => Ed25519
  | UnknownPublicKey => UnknownPublicKeyAlgorithm
  end.

(** ** The Sigma rule evaluator (vql/sigma/evaluator/evaluate.go)

    Events, searches, search expressions, aggregation expressions, VQL
    lambdas, correlators and the values of VQL rows come from other
    packages (sigma-go, vfilter and the rest of the evaluator package);
    they are parameters, together with the functions of those packages
    that [Match] and [MaybeEnrichWithVQL] call. *)
Module Sigma.

Section Evaluator.

Variables (Event Search SearchExpr AggregationExpr Lambda Correlator Any Row : Type).
(** The error [evaluateSearch] may return, and the error of a correlator. *)
Variables (SearchError CorrelationError : Type).

(** [sigma.Condition]: a nil [Aggregation] is [None]. *)
Record Condition := mk_condition {
  CondSearch : SearchExpr;
  CondAggregation : option AggregationExpr
}.

(** [sigma.Detection].  [Searches] is a Go map; the list gives the order in
    which one run of the [range] loop visits it, each identifier once.
    Every theorem below holds for every such order. *)
Record Detection := mk_detection {
  Searches : list (string * Search);
  Conditions : list Condition
}.

(** [sigma.Rule], the fields the evaluator reads. *)
Record Rule := mk_rule {
  RuleDetection : Detection
}.

(** [Result]; [SearchResults] is a Go [map[string]bool]. *)
Record Result := mk_result {
  Match_ : bool;
  SearchResults : gmap string bool;
  ConditionResults : list bool;
  CorrelationHits : list Event
}.

Record FieldMappingRecord := mk_fieldmapping {
  FieldName : string;
  FieldLambda : option Lambda
}.

(** [VQLRuleEvaluator]; nil pointers are [None].  The scope is not
    modelled. *)
Record VQLRuleEvaluator := mk_evaluator {
  EvalRule : Rule;
  lambda : option Lambda;
  lambda_args : option (list (string * Any));
  fieldmappings : list FieldMappingRecord;
  EvalCorrelator : option Correlator
}.

(** The errors [Match] returns: the wrapped error
    "error evaluating search %s: %w" and a correlator's error. *)
Inductive SigmaError :=
| ErrEvaluatingSearch (identifier : string) (err : SearchError)
| ErrCorrelation (err : CorrelationError).

(** [evaluateSearch] (in the evaluator package, outside this file): a
    match result or an error. *)
Variable evaluateSearch : Search -> Event -> bool + SearchError.
(** [evaluateSearchExpression]: the condition's search expression over
    the search results. *)
Variable evaluateSearchExpression : SearchExpr -> gmap string bool -> bool.
(** [SigmaCorrelator.Match]. *)
Variable Correlator_Match :
  Correlator -> VQLRuleEvaluator -> Event -> Result + SigmaError.
(** What [MaybeEnrichWithVQL] uses: [NewEvent(event.Copy())], [Event.Set],
    [Lambda.Reduce] over the lambda arguments, and the scope's
    [GetMembers] and [Associative] on the row the lambda returns. *)
Variable Event_Copy : Event -> Event.
Variable Event_Set : string -> option Any -> Event -> Event.
Variable Lambda_Reduce : Lambda -> option (list (string * Any)) -> Event -> Row.
Variable GetMembers : Row -> list string.
Variable Associative : Row -> string -> option Any.

Definition NewVQLRuleEvaluator (rule : Rule) (fieldmappings : list FieldMappingRecord)
  : VQLRuleEvaluator :=
  mk_evaluator rule None None fieldmappings None.

(** [evaluateAggregationExpression]: not supported yet, always
    [(false, nil)]. *)
Definition evaluateAggregationExpression (conditionIndex : nat)
  (aggregation : AggregationExpr) (event : Event) : bool * option SigmaError :=
  (false, None).

Definition MaybeEnrichWithVQL (self : VQLRuleEvaluator) (event : Event) : Event :=
  match self.(lambda) with
  | Some l =>
      let new_event := Event_Copy event in
      let row := Lambda_Reduce l self.(lambda_args) event in
      fold_left (fun e k => Event_Set k (Associative row k) e) (GetMembers row) new_event
  | None => event
  end.

(** The first loop of [Match]: every search is evaluated in turn; the
    first error ends [Match]. *)
Fixpoint evaluate_searches (event : Event) (searches : list (string * Search))
  (acc : gmap string bool) : gmap string bool + SigmaError :=
  match searches with
  | [] => inl acc
  | (identifier, search) :: rest =>
      match evaluateSearch search event with
      | inr err => inr (ErrEvaluatingSearch identifier err)
      | inl eval_result => evaluate_searches event rest (<[identifier := eval_result]> acc)
      end
  end.

(** The second loop of [Match], from [conditionIndex] on: the running
    [result.Match] and [result.ConditionResults]. *)
Fixpoint evaluate_conditions (event : Event) (search_results : gmap string bool)
  (conditionIndex : nat) (conditions : list Condition) (m : bool)
  (condition_results : list bool) : (bool * list bool) + SigmaError :=
  match conditions with
  | [] => inl (m, condition_results)
  | condition :: rest =>
      let searchMatches :=
        evaluateSearchExpression condition.(CondSearch) search_results in
      if negb searchMatches then
        evaluate_conditions event search_results (S conditionIndex) rest m
          (<[conditionIndex := false]> condition_results)
      else
        match condition.(CondAggregation) with
        | None =>
            evaluate_conditions event search_results (S conditionIndex) rest true
              (<[conditionIndex := true]> condition_results)
        | Some aggregation =>
            let '(aggregationMatches, err) :=
              evaluateAggregationExpression conditionIndex aggregation event in
            match err with
            | Some e => inr e
            | None =>
                if aggregationMatches then
                  evaluate_conditions event search_results (S conditionIndex) rest
                    true (<[conditionIndex := true]> condition_results)
                else
                  evaluate_conditions event search_results (S conditionIndex) rest
                    m condition_results
            end
        end
  end.

(** [VQLRuleEvaluator.Match]. *)
Definition Match (self : VQLRuleEvaluator) (event : Event) : Result + SigmaError :=
  let detection := self.(EvalRule).(RuleDetection) in
  match evaluate_searches event detection.(Searches) ∅ with
  | inr err => inr err
  | inl search_results =>
      match evaluate_conditions event search_results 0 detection.(Conditions) false
              (replicate (length detection.(Conditions)) false) with
      | inr err => inr err
      | inl (m, condition_results) =>
          let result := mk_result m search_results condition_results [] in
          match self.(EvalCorrelator) with
          | Some c => if m then Correlator_Match c self event else inl result
          | None => inl result
          end
      end
  end.

(** Whether one condition is counted as matched by [Match]: its search
    expression holds and it carries no aggregation (an aggregation is
    never satisfied, see [evaluateAggregationExpression]). *)
Definition condition_matches (search_results : gmap string bool)
  (condition : Condition) : bool :=
  evaluateSearchExpression condition.(CondSearch) search_results &&
  match condition.(CondAggregation) with None => true | Some _ => false end.

End Evaluator.

End Sigma.

(** ** A concrete instance of the collaborators

    RSA keys are represented by their text; the PEM encoding prefixes
    "PEM:"; client ids are "C." followed by the key, qualified with
    "-<org>" outside the root org; a small table stands for the CSR
    parser. *)
Module Demo.

Local Open Scope string_scope.

Definition PublicKey := string.

Definition PublicKeyToPem (k : PublicKey) : string := "PEM:" ++ k.

Definition PemToPublicKey (s : string) : option PublicKey :=
  match s with
  | String "P"%char (String "E"%char (String "M"%char (String ":"%char k))) =>
      Some k
  | _ => None
  end.

Definition ClientIDFromPublicKey (k : PublicKey) : string := "C." ++ k.

Definition ClientIdFromConfigObj (client_id : string) (config_obj : Config)
  : string :=
  if String.eqb config_obj.(OrgId) "" then client_id
  else client_id ++ "-" ++ config_obj.(OrgId).

Definition ClientPathKey (client_id : string) : string :=
  "/clients/" ++ client_id ++ "/key".

Definition ParseX509CSRFromPemStr (s : string)
  : option (CertificateRequest PublicKey) :=
  if String.eqb s "csr:abcd" then Some (mk_csr (RSAPublicKey "abcd") "C.abcd")
  else if String.eqb s "csr:ecdsa" then Some (mk_csr ECDSAPublicKey "C.abcd")
  else if String.eqb s "csr:forged" then Some (mk_csr (RSAPublicKey "abcd") "C.ffff")
  else None.

(** A configuration with the given [UnauthenticatedLruTimeoutSec]. *)
Definition config (timeout_sec : Z) : Config :=
  mk_config (Some (mk_defaults timeout_sec)) "".

(** A healthy, empty datastore. *)
Definition empty_store : DataStore := mk_store true true true ∅ 0.

(** A freshly constructed resolver over an empty datastore at time 0. *)
Definition fresh_world (timeout_sec : Z) : World :=
  mk_world (NewServerPublicKeyResolver (config timeout_sec)) empty_store 0.

End Demo.

(** ** A concrete instance of the evaluator's collaborators

    Events and rows are maps from field names to numbers; a search names
    a field and matches when the event has it (the empty name is an
    error); a search expression names a search; a lambda is a function
    from the event to a row; the correlator reports the event as a hit. *)
Module SigmaDemo.

Definition Event := gmap string nat.
Definition Row := gmap string nat.
Definition Lambda := Event -> Row.

Definition evaluateSearch (s : string) (e : Event) : bool + string :=
  if String.eqb s "" then inr "empty field name"
  else inl (match e !! s with Some _ => true | None => false end).

Definition evaluateSearchExpression (x : string) (sr : gmap string bool) : bool :=
  match sr !! x with Some b => b | None => false end.

Definition Evaluator :=
  Sigma.VQLRuleEvaluator string string unit Lambda unit nat.

Definition Correlator_Match (c : unit) (self : Evaluator) (e : Event)
  : Sigma.Result Event + Sigma.SigmaError string string :=
  inl (Sigma.mk_result Event true ∅ [] [e]).

Definition Event_Copy (e : Event) : Event := e.

Definition Event_Set (k : string) (v : option nat) (e : Event) : Event :=
  match v with Some x => <[k := x]> e | None => delete k e end.

Definition Lambda_Reduce (l : Lambda) (args : option (list (string * nat)))
  (e : Event) : Row := l e.

Definition GetMembers (r : Row) : list string := map fst (map_to_list r).

Definition Associative (r : Row) (k : string) : option nat := r !! k.

Definition Event_Get (e : Event) (k : string) : option nat := e !! k.

Definition rule (searches : list (string * string))
  (conditions : list (Sigma.Condition string unit)) : Sigma.Rule string string unit :=
  Sigma.mk_rule _ _ _ (Sigma.mk_detection _ _ _ searches conditions).

Abbreviation Match :=
  (Sigma.Match Event string string unit Lambda unit nat string string
     evaluateSearch evaluateSearchExpression Correlator_Match).

Abbreviation Enrich :=
  (Sigma.MaybeEnrichWithVQL Event string string unit Lambda unit nat Row
     Event_Copy Event_Set Lambda_Reduce GetMembers Associative).

Definition process_event : Event := <["Image" := 1%nat]> ∅.

(** An evaluator for a rule with the given searches and conditions, no
    lambda and the given correlator. *)
Definition detector (searches : list (string * string))
  (conditions : list (Sigma.Condition string unit)) (correlator : option unit)
  : Evaluator :=
  Sigma.mk_evaluator _ _ _ _ _ _ (rule searches conditions) None None [] correlator.

(** An evaluator whose lambda returns a row overriding [Image] and adding
    [score]. *)
Definition enricher : Evaluator :=
  Sigma.mk_evaluator _ _ _ _ _ _ (rule [] [])
    (Some (fun _ => <["Image" := 2%nat]> (<["score" := 7%nat]> ∅))) None [] None.

Definition demo_searches : list (string * string) :=
  [("sel", "Image"); ("cmd", "CommandLine")].

Definition demo_conditions : list (Sigma.Condition string unit) :=
  [Sigma.mk_condition _ _ "sel" None; Sigma.mk_condition _ _ "cmd" None;
   Sigma.mk_condition _ _ "sel" (Some tt)].

End SigmaDemo.

(** ** The resolver and the manager

    The collaborators below are code of other packages ([crypto/utils],
    [utils], [paths], [crypto/x509]); every theorem holds for any choice
    of them. *)
Section Manager.

(** [*rsa.PublicKey]. *)
Variable PublicKey : Type.
(** [crypto_utils.PublicKeyToPem] and [crypto_utils.PemToPublicKey]. *)
Variable PublicKeyToPem : PublicKey -> string.
Variable PemToPublicKey : string -> option PublicKey.
(** [crypto_utils.ClientIDFromPublicKey]. *)
Variable ClientIDFromPublicKey : PublicKey -> string.
(** [utils.ClientIdFromConfigObj]: qualifies a client id with the org. *)
Variable ClientIdFromConfigObj : string -> Config -> string.
(** [paths.NewClientPathManager(client_id).Key()]. *)
Variable ClientPathKey : string -> string.

(** [crypto_utils.ParseX509CSRFromPemStr]; [None] is a parse error. *)
Variable ParseX509CSRFromPemStr : string -> option (CertificateRequest PublicKey).

(** [serverPublicKeyResolver.GetPublicKey]: [Some key] is [(key, true)],
    [None] is [(nil, false)]. *)
Definition GetPublicKey (config_obj : Config) (client_id : string) (w : World)
  : option PublicKey * World :=
  let '(hit, lru) := TTLCache.Get client_id w.(now) w.(negative_lru) in
  let w := with_cache lru w in
  if hit then (None, w)
  else
    let path := ClientPathKey client_id in
    if negb w.(store).(db_ok) then (None, w)
    else
      let '(rec, st) := GetSubject path w.(store) in
      let w := with_store st w in
      match rec with
      | None =>
          (None, with_cache (TTLCache.Set_ client_id w.(now) w.(negative_lru)) w)
      | Some pem =>
          match PemToPublicKey pem.(Pem) with
          | None =>
              (None,
               with_cache (TTLCache.Set_ client_id w.(now) w.(negative_lru)) w)
          | Some key => (Some key, w)
          end
      end.

(** [serverPublicKeyResolver.SetPublicKey]; [EnrollTime] is
    [time.Now().Unix()]. *)
Definition SetPublicKey (config_obj : Config) (client_id : string)
  (key : PublicKey) (w : World) : option GoError * World :=
  let w := with_cache (TTLCache.Remove client_id w.(negative_lru)) w in
  let path := ClientPathKey client_id in
  if negb w.(store).(db_ok) then (Some ErrGetDB, w)
  else
    let pem := mk_record (PublicKeyToPem key) (w.(now) / Second) in
    let '(err, st) := SetSubjectWithCompletion path pem w.(store) in
    (err, with_store st w).

(** [ServerCryptoManager.AddCertificateRequest]: the returned string and
    the error.  The RSA check and the [*rsa.PublicKey] type assertion are
    one match on the request's key. *)
Definition AddCertificateRequest (config_obj : Config) (csr_pem : string)
  (w : World) : (string * option GoError) * World :=
  match ParseX509CSRFromPemStr csr_pem with
  | None => (("", Some ErrParseCSR), w)
  | Some csr =>
      match csr.(CsrKey) with
      | RSAPublicKey public_key =>
          let common_name := csr.(CommonName) in
          if negb (String.eqb common_name (ClientIDFromPublicKey public_key))
          then (("", Some ErrInvalidCSR), w)
          else
            let '(err, w) := SetPublicKey config_obj
                               (ClientIdFromConfigObj common_name config_obj)
                               public_key w in
            match err with
            | Some e => (("", Some e), w)
            | None =>
                let client_id := ClientIdFromConfigObj csr.(CommonName) config_obj in
                ((client_id, None), w)
            end
      | _ => (("", Some ErrNotRSA), w)
      end
  end.


(** *** Cache lemmas *)

Lemma Get_miss (key : string) (t : Z) (c : TTLCache.Cache) :
  TTLCache.live key t c = false -> TTLCache.Get key t c = (false, c).
Proof.
  unfold TTLCache.live, TTLCache.Get.
  destruct (TTLCache.items c !! key) as [it|]; [|done].
  destruct (TTLCache.expired t it); done.
Qed.

Lemma Get_hit (key : string) (t : Z) (c : TTLCache.Cache) :
  TTLCache.live key t c = true -> fst (TTLCache.Get key t c) = true.
Proof.
  unfold TTLCache.live, TTLCache.Get.
  destruct (TTLCache.items c !! key) as [it|]; [|done].
  destruct (TTLCache.expired t it); [done|].
  destruct (TTLCache.skip_ttl_extension c); done.
Qed.

(** Expiry is monotone in time: a miss stays a miss later on. *)
Lemma live_later (key : string) (t t' : Z) (c : TTLCache.Cache) :
  t <= t' -> TTLCache.live key t c = false -> TTLCache.live key t' c = false.
Proof.
  unfold TTLCache.live, TTLCache.expired.
  destruct (TTLCache.items c !! key) as [it|]; [|done].
  intros Ht. destruct (TTLCache.item_ttl it <=? 0); [done|].
  rewrite !negb_false_iff, !Z.ltb_lt. lia.
Qed.

(** An item stored at [t0] is live at every [t] of its TTL window. *)
Lemma live_after_Set (key : string) (t0 t : Z) (c : TTLCache.Cache) :
  (0 < TTLCache.ttl c -> t <= t0 + TTLCache.ttl c) ->
  TTLCache.live key t (TTLCache.Set_ key t0 c) = true.
Proof.
  intros Hw. unfold TTLCache.live, TTLCache.Set_; simpl.
  rewrite lookup_insert_eq.
  unfold TTLCache.new_item, TTLCache.touch, TTLCache.expired; simpl.
  destruct (0 <? TTLCache.ttl c) eqn:Hp; simpl.
  - apply Z.ltb_lt in Hp. rewrite (proj2 (Z.leb_gt _ _) Hp).
    apply negb_true_iff, Z.ltb_ge. lia.
  - apply Z.ltb_ge in Hp. rewrite (proj2 (Z.leb_le _ _) Hp). done.
Qed.

Lemma Remove_not_live (key : string) (t : Z) (c : TTLCache.Cache) :
  TTLCache.live key t (TTLCache.Remove key c) = false.
Proof.
  unfold TTLCache.live, TTLCache.Remove; simpl. by rewrite lookup_delete_eq.
Qed.

(** *** Unfolding [GetPublicKey] *)

Lemma GetPublicKey_hit (config_obj : Config) (client_id : string) (w : World) :
  TTLCache.live client_id w.(now) w.(negative_lru) = true ->
  fst (GetPublicKey config_obj client_id w) = None /\
  (snd (GetPublicKey config_obj client_id w)).(store) = w.(store).
Proof.
  intros Hl. pose proof (Get_hit _ _ _ Hl) as Hh.
  unfold GetPublicKey.
  destruct (TTLCache.Get client_id (now w) (negative_lru w)) as [hit lru].
  simpl in Hh. subst hit. done.
Qed.

Lemma GetPublicKey_miss (config_obj : Config) (client_id : string) (w : World) :
  TTLCache.live client_id w.(now) w.(negative_lru) = false ->
  GetPublicKey config_obj client_id w =
  if negb w.(store).(db_ok) then (None, w)
  else
    let '(rec, st) := GetSubject (ClientPathKey client_id) w.(store) in
    let w' := with_store st w in
    match rec with
    | None =>
        (None, with_cache (TTLCache.Set_ client_id w.(now) w.(negative_lru)) w')
    | Some pem =>
        match PemToPublicKey pem.(Pem) with
        | None =>
            (None, with_cache (TTLCache.Set_ client_id w.(now) w.(negative_lru)) w')
        | Some key => (Some key, w')
        end
    end.
Proof.
  intros Hl. unfold GetPublicKey. rewrite (Get_miss _ _ _ Hl).
  destruct w as [c st t]. reflexivity.
Qed.

(** ** Claims about [GetPublicKey] *)

(** C4: after a miss on the negative cache, when the record read fails or
    the stored PEM does not decode, [GetPublicKey] returns [(nil, false)],
    inserts a negative entry for the client id with the cache's TTL, and
    performs exactly that one store read; a store failure never becomes
    anything but "not found". *)
Theorem GetPublicKey_read_failure_cached (config_obj : Config)
  (client_id : string) (w : World) :
  TTLCache.live client_id w.(now) w.(negative_lru) = false ->
  w.(store).(db_ok) = true ->
  (w.(store).(read_ok) = false \/
   w.(store).(subjects) !! ClientPathKey client_id = None \/
   (exists r, w.(store).(subjects) !! ClientPathKey client_id = Some r /\
              PemToPublicKey r.(Pem) = None)) ->
  let '(res, w') := GetPublicKey config_obj client_id w in
  res = None /\
  w'.(negative_lru) = TTLCache.Set_ client_id w.(now) w.(negative_lru) /\
  w'.(negative_lru).(TTLCache.items) !! client_id =
    Some (TTLCache.new_item w.(now) w.(negative_lru).(TTLCache.ttl)) /\
  w'.(store).(subjects) = w.(store).(subjects) /\
  w'.(store).(reads) = S w.(store).(reads).
Proof.
  intros Hl Hdb Hfail. rewrite (GetPublicKey_miss _ _ _ Hl), Hdb; simpl.
  unfold GetSubject.
  assert (Hins : TTLCache.items (TTLCache.Set_ client_id (now w) (negative_lru w))
                   !! client_id =
                 Some (TTLCache.new_item (now w) (TTLCache.ttl (negative_lru w))))
    by (unfold TTLCache.Set_; simpl; by rewrite lookup_insert_eq).
  destruct (read_ok (store w)) eqn:Hr; simpl.
  - destruct Hfail as [Hf | [Hf | [r [Hf Hd]]]]; [congruence | |].
    + rewrite Hf; simpl. done.
    + rewrite Hf; simpl. rewrite Hd. done.
  - done.
Qed.

(** C5: a live negative entry short-circuits [GetPublicKey] to
    [(nil, false)] without touching the store; in particular, once a
    lookup of an unknown client went to the store and failed, a second
    lookup within the TTL window returns [(nil, false)] without a second
    read, whatever the store then holds. *)
Theorem GetPublicKey_negative_hit (config_obj : Config) (client_id : string) :
  (forall w : World,
     TTLCache.live client_id w.(now) w.(negative_lru) = true ->
     fst (GetPublicKey config_obj client_id w) = None /\
     (snd (GetPublicKey config_obj client_id w)).(store) = w.(store)) /\
  (forall (w : World) (st2 : DataStore) (t : Z),
     TTLCache.live client_id w.(now) w.(negative_lru) = false ->
     w.(store).(db_ok) = true ->
     fst (GetPublicKey config_obj client_id w) = None ->
     (0 < w.(negative_lru).(TTLCache.ttl) -> t <= w.(now) + w.(negative_lru).(TTLCache.ttl)) ->
     let w1 := snd (GetPublicKey config_obj client_id w) in
     w1.(store).(reads) = S w.(store).(reads) /\
     fst (GetPublicKey config_obj client_id (mk_world w1.(negative_lru) st2 t)) = None /\
     (snd (GetPublicKey config_obj client_id (mk_world w1.(negative_lru) st2 t))).(store)
       = st2).
Proof.
  split; [intros w Hl; by apply GetPublicKey_hit|].
  intros w st2 t Hl Hdb Hnone Hw.
  assert (Hc : (snd (GetPublicKey config_obj client_id w)).(negative_lru) =
               TTLCache.Set_ client_id w.(now) w.(negative_lru) /\
               (snd (GetPublicKey config_obj client_id w)).(store).(reads) =
               S w.(store).(reads)).
  { revert Hnone. rewrite (GetPublicKey_miss _ _ _ Hl), Hdb; simpl.
    unfold GetSubject. destruct (read_ok (store w)); simpl; [|done].
    destruct (subjects (store w) !! ClientPathKey client_id) as [r|]; simpl; [|done].
    destruct (PemToPublicKey (Pem r)); simpl; done. }
  destruct Hc as [Hc Hreads]. simpl. split; [done|].
  rewrite Hc.
  apply (GetPublicKey_hit config_obj client_id
           (mk_world (TTLCache.Set_ client_id (now w) (negative_lru w)) st2 t)).
  simpl. by apply live_after_Set.
Qed.

(** C9: when [datastore.GetDB] fails after a cache miss, [GetPublicKey]
    returns [(nil, false)] and leaves the whole world unchanged: no
    negative entry is stored, so a later lookup with a working datastore
    reads the store again. *)
Theorem GetPublicKey_getdb_failure_not_cached (config_obj : Config)
  (client_id : string) (w : World) :
  TTLCache.live client_id w.(now) w.(negative_lru) = false ->
  w.(store).(db_ok) = false ->
  GetPublicKey config_obj client_id w = (None, w) /\
  (forall (st2 : DataStore) (t : Z),
     st2.(db_ok) = true -> w.(now) <= t ->
     (snd (GetPublicKey config_obj client_id
             (mk_world w.(negative_lru) st2 t))).(store).(reads) = S st2.(reads)).
Proof.
  intros Hl Hdb. split.
  - rewrite (GetPublicKey_miss _ _ _ Hl), Hdb. done.
  - intros st2 t Hdb2 Ht.
    pose proof (live_later _ _ _ _ Ht Hl) as Hl2.
    rewrite (GetPublicKey_miss config_obj client_id (mk_world (negative_lru w) st2 t) Hl2).
    simpl. rewrite Hdb2; simpl. unfold GetSubject.
    destruct (read_ok st2); simpl; [|done].
    destruct (subjects st2 !! ClientPathKey client_id) as [r|]; simpl; [|done].
    destruct (PemToPublicKey (Pem r)); done.
Qed.

(** *** Unfolding [SetPublicKey] *)

Lemma SetPublicKey_ok (config_obj : Config) (client_id : string) (key : PublicKey)
  (w w1 : World) :
  SetPublicKey config_obj client_id key w = (None, w1) ->
  w.(store).(db_ok) = true /\ w.(store).(write_ok) = true /\
  w1 = mk_world (TTLCache.Remove client_id w.(negative_lru))
         (mk_store true w.(store).(read_ok) true
            (<[ClientPathKey client_id :=
                 mk_record (PublicKeyToPem key) (w.(now) / Second)]>
               w.(store).(subjects))
            w.(store).(reads))
         w.(now).
Proof.
  destruct w as [c [db rd wr kv n] t].
  unfold SetPublicKey, SetSubjectWithCompletion; simpl.
  destruct db; simpl; [|discriminate].
  destruct wr; simpl; [|discriminate].
  intros H. injection H as <-. done.
Qed.

Lemma SetPublicKey_error (config_obj : Config) (client_id : string) (key : PublicKey)
  (w w1 : World) (e : GoError) :
  SetPublicKey config_obj client_id key w = (Some e, w1) ->
  w1 = with_cache (TTLCache.Remove client_id w.(negative_lru)) w.
Proof.
  destruct w as [c [db rd wr kv n] t].
  unfold SetPublicKey, SetSubjectWithCompletion; simpl.
  destruct db; simpl.
  - destruct wr; simpl; [discriminate|]. intros H. injection H as _ <-. done.
  - intros H. injection H as _ <-. done.
Qed.

(** ** Claims about [SetPublicKey] and [DeleteSubject] *)

Section Roundtrip.

(** The PEM written by [PublicKeyToPem] decodes back to the same key. *)
Hypothesis pem_roundtrip : forall k, PemToPublicKey (PublicKeyToPem k) = Some k.

Lemma GetPublicKey_after_SetPublicKey (config_obj : Config) (client_id : string)
  (k : PublicKey) (w w1 : World) (t : Z) :
  w.(store).(read_ok) = true ->
  SetPublicKey config_obj client_id k w = (None, w1) ->
  GetPublicKey config_obj client_id (mk_world w1.(negative_lru) w1.(store) t) =
  (Some k, mk_world w1.(negative_lru)
             (mk_store true true true w1.(store).(subjects) (S w1.(store).(reads))) t).
Proof.
  intros Hr Hset. destruct (SetPublicKey_ok _ _ _ _ _ Hset) as (Hdb & Hwr & ->).
  rewrite GetPublicKey_miss by (simpl; apply Remove_not_live).
  simpl. unfold GetSubject; simpl. rewrite Hr; simpl.
  rewrite lookup_insert_eq; simpl. rewrite pem_roundtrip. done.
Qed.

(** C6: after a successful [SetPublicKey id k], [GetPublicKey id] returns
    [(k, true)] at any later time, and binding the same id again with
    [k'] makes the next [GetPublicKey id] return [(k', true)]: the last
    bind wins. *)
Theorem SetPublicKey_then_GetPublicKey (config_obj : Config) (client_id : string) :
  (forall (k : PublicKey) (w w1 : World) (t : Z),
     w.(store).(read_ok) = true ->
     SetPublicKey config_obj client_id k w = (None, w1) ->
     fst (GetPublicKey config_obj client_id
            (mk_world w1.(negative_lru) w1.(store) t)) = Some k) /\
  (forall (kA kB : PublicKey) (w w1 w2 : World) (t1 t2 : Z),
     w.(store).(read_ok) = true ->
     SetPublicKey config_obj client_id kA w = (None, w1) ->
     SetPublicKey config_obj client_id kB
       (mk_world w1.(negative_lru) w1.(store) t1) = (None, w2) ->
     fst (GetPublicKey config_obj client_id
            (mk_world w1.(negative_lru) w1.(store) t2)) = Some kA /\
     fst (GetPublicKey config_obj client_id
            (mk_world w2.(negative_lru) w2.(store) t2)) = Some kB).
Proof.
  split.
  - intros k w w1 t Hr Hset.
    by rewrite (GetPublicKey_after_SetPublicKey _ _ _ _ _ _ Hr Hset).
  - intros kA kB w w1 w2 t1 t2 Hr H1 H2.
    rewrite (GetPublicKey_after_SetPublicKey _ _ _ _ _ _ Hr H1). split; [done|].
    assert (Hr1 : w1.(store).(read_ok) = true)
      by (destruct (SetPublicKey_ok _ _ _ _ _ H1) as (_ & _ & ->); done).
    by rewrite (GetPublicKey_after_SetPublicKey _ _ _
                  (mk_world w1.(negative_lru) w1.(store) t1) _ _ Hr1 H2).
Qed.

End Roundtrip.

(** C7: [DeleteSubject] removes the negative entry of the client id and
    nothing else (the store, the clock and the other entries are kept);
    it is idempotent and a no-op without an entry; and a [GetPublicKey]
    right after it reads the store again when the datastore is
    reachable. *)
Theorem DeleteSubject_evicts_only (config_obj : Config) (client_id : string)
  (w : World) :
  (DeleteSubject client_id w).(store) = w.(store) /\
  (DeleteSubject client_id w).(now) = w.(now) /\
  (DeleteSubject client_id w).(negative_lru) =
    TTLCache.mk_cache w.(negative_lru).(TTLCache.ttl)
      w.(negative_lru).(TTLCache.skip_ttl_extension)
      (delete client_id w.(negative_lru).(TTLCache.items)) /\
  DeleteSubject client_id (DeleteSubject client_id w) = DeleteSubject client_id w /\
  (w.(negative_lru).(TTLCache.items) !! client_id = None ->
   DeleteSubject client_id w = w) /\
  (w.(store).(db_ok) = true ->
   (snd (GetPublicKey config_obj client_id (DeleteSubject client_id w))).(store).(reads)
   = S w.(store).(reads)).
Proof.
  destruct w as [[d skip its] st t].
  unfold DeleteSubject, with_cache, TTLCache.Remove; simpl.
  split; [done|]. split; [done|]. split; [done|].
  split; [by rewrite delete_delete_eq|].
  split; [intros Hn; by rewrite delete_id|].
  intros Hdb.
  rewrite GetPublicKey_miss
    by (unfold TTLCache.live; simpl; by rewrite lookup_delete_eq).
  simpl. rewrite Hdb; simpl. unfold GetSubject.
  destruct (read_ok st); simpl; [|done].
  destruct (subjects st !! ClientPathKey client_id) as [r|]; simpl; [|done].
  destruct (PemToPublicKey (Pem r)); done.
Qed.


(** ** Claims about [AddCertificateRequest] *)

(** C1 (as amended): enrollment succeeds exactly when the CSR parses, its
    key is RSA, its common name is [ClientIDFromPublicKey] of that key and
    the following [SetPublicKey] under the org-qualified id succeeds.  A
    parse failure gives the parse error, any non-RSA key gives
    "Not RSA algorithm" whatever the common name, a mismatching common
    name gives "Invalid CSR", a failing [SetPublicKey] gives its error, and
    a failed enrollment returns the empty string. *)
Theorem AddCertificateRequest_outcome (config_obj : Config) (csr_pem : string)
  (w : World) :
  let '((cid, err), w') := AddCertificateRequest config_obj csr_pem w in
  (err = None <->
   exists csr k,
     ParseX509CSRFromPemStr csr_pem = Some csr /\
     csr.(CsrKey) = RSAPublicKey k /\
     csr.(CommonName) = ClientIDFromPublicKey k /\
     fst (SetPublicKey config_obj
            (ClientIdFromConfigObj csr.(CommonName) config_obj) k w) = None) /\
  (ParseX509CSRFromPemStr csr_pem = None -> err = Some ErrParseCSR) /\
  (forall csr, ParseX509CSRFromPemStr csr_pem = Some csr ->
     PublicKeyAlgorithmOf csr <> RSA -> err = Some ErrNotRSA) /\
  (forall csr k, ParseX509CSRFromPemStr csr_pem = Some csr ->
     csr.(CsrKey) = RSAPublicKey k ->
     csr.(CommonName) <> ClientIDFromPublicKey k -> err = Some ErrInvalidCSR) /\
  (forall csr k e, ParseX509CSRFromPemStr csr_pem = Some csr ->
     csr.(CsrKey) = RSAPublicKey k ->
     csr.(CommonName) = ClientIDFromPublicKey k ->
     fst (SetPublicKey config_obj
            (ClientIdFromConfigObj csr.(CommonName) config_obj) k w) = Some e ->
     err = Some e) /\
  (err <> None -> cid = "").
Proof.
  unfold AddCertificateRequest.
  destruct (ParseX509CSRFromPemStr csr_pem) as [[key cn]|] eqn:Hp.
  2:{ split; [split; [discriminate|intros (? & ? & ? & _); discriminate]|].
      split; [done|]. split; [intros ? ?; discriminate|].
      split; [intros ? ? ?; discriminate|].
      split; [intros ? ? ? ?; discriminate|done]. }
  simpl. destruct key as [k| | | |];
    try (split; [split; [discriminate|
                   intros (csr & k & Hc & Hk & _); injection Hc as <-; discriminate]|];
         split; [discriminate|];
         split; [intros csr Hc _; done|];
         split; [intros csr k Hc Hk; injection Hc as <-; discriminate|];
         split; [intros csr k e Hc Hk; injection Hc as <-; discriminate|done]).
  destruct (String.eqb cn (ClientIDFromPublicKey k)) eqn:He; simpl.
  - apply String.eqb_eq in He.
    destruct (SetPublicKey config_obj (ClientIdFromConfigObj cn config_obj) k w)
      as [[e|] w1] eqn:Hs.
    + split.
      { split; [discriminate|].
        intros (csr & k' & Hc & Hk & _ & Hn). injection Hc as <-.
        simpl in Hk, Hn. injection Hk as <-. rewrite Hs in Hn. discriminate. }
      split; [discriminate|].
      split; [intros csr Hc Hn; injection Hc as <-; done|].
      split; [intros csr k' Hc Hk Hn; injection Hc as <-; simpl in *;
              injection Hk as <-; done|].
      split; [|done].
      intros csr k' e' Hc Hk _ Hn. injection Hc as <-. simpl in Hk.
      injection Hk as <-. simpl in Hn. rewrite Hs in Hn. done.
    + split.
      { split; [intros _|done]. exists (mk_csr (RSAPublicKey k) cn), k.
        simpl. rewrite Hs. done. }
      split; [discriminate|].
      split; [intros csr Hc Hn; injection Hc as <-; done|].
      split; [intros csr k' Hc Hk Hn; injection Hc as <-; simpl in *;
              injection Hk as <-; done|].
      split; [|done].
      intros csr k' e' Hc Hk _ Hn. injection Hc as <-. simpl in Hk.
      injection Hk as <-. simpl in Hn. rewrite Hs in Hn. done.
  - apply String.eqb_neq in He.
    split.
    { split; [discriminate|].
      intros (csr & k' & Hc & Hk & Heq & _). injection Hc as <-.
      simpl in Hk, Heq. injection Hk as <-. done. }
    split; [discriminate|].
    split; [intros csr Hc Hn; injection Hc as <-; done|].
    split; [done|].
    split; [|done].
    intros csr k' e' Hc Hk Heq _. injection Hc as <-. simpl in Hk, Heq.
    injection Hk as <-. done.
Qed.

(** C3 (as amended): when [SetPublicKey] fails (no datastore handle or a
    failed write) the store and the clock are unchanged but the negative
    entry for the id has already been removed; [AddCertificateRequest]
    propagates exactly that error and that state. *)
Theorem SetPublicKey_failure_effect :
  (forall (config_obj : Config) (client_id : string) (k : PublicKey)
          (w w1 : World) (e : GoError),
     SetPublicKey config_obj client_id k w = (Some e, w1) ->
     w1.(store) = w.(store) /\ w1.(now) = w.(now) /\
     w1.(negative_lru) = TTLCache.Remove client_id w.(negative_lru)) /\
  (forall (config_obj : Config) (csr_pem : string) (w w1 : World)
          (csr : CertificateRequest PublicKey) (k : PublicKey) (e : GoError),
     ParseX509CSRFromPemStr csr_pem = Some csr ->
     csr.(CsrKey) = RSAPublicKey k ->
     csr.(CommonName) = ClientIDFromPublicKey k ->
     SetPublicKey config_obj
       (ClientIdFromConfigObj csr.(CommonName) config_obj) k w = (Some e, w1) ->
     AddCertificateRequest config_obj csr_pem w = (("", Some e), w1)).
Proof.
  split.
  - intros config_obj client_id k w w1 e Hs.
    rewrite (SetPublicKey_error _ _ _ _ _ _ Hs). done.
  - intros config_obj csr_pem w w1 [key cn] k e Hp Hk Hcn Hs.
    simpl in Hk, Hcn, Hs. subst key cn.
    unfold AddCertificateRequest. rewrite Hp; simpl.
    rewrite String.eqb_refl; simpl. rewrite Hs. done.
Qed.

(** C10: the id returned by a successful enrollment is the org-qualified
    id [SetPublicKey] was called with, and the store now holds the
    presented key's PEM under that id's path. *)
Theorem AddCertificateRequest_returns_storage_key (config_obj : Config)
  (csr_pem : string) (w : World) :
  let '((cid, err), w') := AddCertificateRequest config_obj csr_pem w in
  err = None ->
  exists csr k,
    ParseX509CSRFromPemStr csr_pem = Some csr /\
    csr.(CsrKey) = RSAPublicKey k /\
    cid = ClientIdFromConfigObj csr.(CommonName) config_obj /\
    SetPublicKey config_obj cid k w = (None, w') /\
    w'.(store).(subjects) !! ClientPathKey cid =
      Some (mk_record (PublicKeyToPem k) (w.(now) / Second)).
Proof.
  unfold AddCertificateRequest.
  destruct (ParseX509CSRFromPemStr csr_pem) as [[key cn]|] eqn:Hp; [|discriminate].
  simpl. destruct key as [k| | | |]; try discriminate.
  destruct (String.eqb cn (ClientIDFromPublicKey k)); simpl; [|discriminate].
  destruct (SetPublicKey config_obj (ClientIdFromConfigObj cn config_obj) k w)
    as [[e|] w1] eqn:Hs; [discriminate|].
  intros _. exists (mk_csr (RSAPublicKey k) cn), k.
  split; [done|]. split; [done|]. split; [done|]. split; [done|].
  destruct (SetPublicKey_ok _ _ _ _ _ Hs) as (_ & _ & ->). simpl.
  by rewrite lookup_insert_eq.
Qed.


(** ** Further properties of the resolver and the enrollment *)

Lemma Get_settings (key : string) (t : Z) (c : TTLCache.Cache) :
  TTLCache.ttl (snd (TTLCache.Get key t c)) = TTLCache.ttl c /\
  TTLCache.skip_ttl_extension (snd (TTLCache.Get key t c)) = TTLCache.skip_ttl_extension c.
Proof.
  unfold TTLCache.Get.
  destruct (TTLCache.items c !! key) as [it|]; [|done].
  destruct (TTLCache.expired t it); [done|].
  destruct (TTLCache.skip_ttl_extension c) eqn:Hs; done.
Qed.

Lemma SetPublicKey_error_code (config_obj : Config) (client_id : string)
  (key : PublicKey) (w : World) (e : GoError) :
  fst (SetPublicKey config_obj client_id key w) = Some e ->
  e = ErrGetDB \/ e = ErrSetSubject.
Proof.
  unfold SetPublicKey, SetSubjectWithCompletion; simpl.
  destruct (db_ok (store w)); simpl.
  - destruct (write_ok (store w)); simpl; [discriminate|].
    intros H; injection H as <-. by right.
  - intros H; injection H as <-. by left.
Qed.

Local Ltac read_only_close :=
  repeat split;
  first [reflexivity | assumption | symmetry; assumption
        | left; reflexivity | right; reflexivity].

(** [GetPublicKey] never writes the store: records and failure flags are
    kept, the clock is kept, and at most one read is made. *)
Theorem GetPublicKey_store_read_only (config_obj : Config) (client_id : string)
  (w : World) :
  let w' := snd (GetPublicKey config_obj client_id w) in
  w'.(store).(subjects) = w.(store).(subjects) /\
  w'.(store).(db_ok) = w.(store).(db_ok) /\
  w'.(store).(read_ok) = w.(store).(read_ok) /\
  w'.(store).(write_ok) = w.(store).(write_ok) /\
  w'.(now) = w.(now) /\
  (w'.(store).(reads) = w.(store).(reads) \/ w'.(store).(reads) = S w.(store).(reads)).
Proof.
  unfold GetPublicKey.
  destruct (TTLCache.Get client_id (now w) (negative_lru w)) as [hit lru].
  destruct hit; simpl; [read_only_close|].
  destruct (db_ok (store w)) eqn:Hdb; simpl; [|read_only_close].
  unfold GetSubject.
  destruct (read_ok (store w)) eqn:Hr; simpl;
    [destruct (subjects (store w) !! ClientPathKey client_id) as [r|]; simpl;
     [destruct (PemToPublicKey (Pem r))|]|];
    simpl; read_only_close.
Qed.

(** [GetPublicKey] returns a key only after a negative-cache miss, with a
    reachable datastore, when a record is stored under the client's path
    and its PEM decodes to that key; a found key is not cached (the
    negative cache is left as it was). *)
Theorem GetPublicKey_found (config_obj : Config) (client_id : string) (w : World)
  (k : PublicKey) :
  fst (GetPublicKey config_obj client_id w) = Some k ->
  TTLCache.live client_id w.(now) w.(negative_lru) = false /\
  w.(store).(db_ok) = true /\ w.(store).(read_ok) = true /\
  (exists r, w.(store).(subjects) !! ClientPathKey client_id = Some r /\
             PemToPublicKey r.(Pem) = Some k) /\
  (snd (GetPublicKey config_obj client_id w)).(negative_lru) = w.(negative_lru).
Proof.
  destruct (TTLCache.live client_id (now w) (negative_lru w)) eqn:Hl.
  { rewrite (proj1 (GetPublicKey_hit config_obj client_id w Hl)). discriminate. }
  rewrite (GetPublicKey_miss _ _ _ Hl).
  destruct (db_ok (store w)) eqn:Hdb; simpl; [|discriminate].
  unfold GetSubject.
  destruct (read_ok (store w)) eqn:Hr; simpl; [|discriminate].
  destruct (subjects (store w) !! ClientPathKey client_id) as [r|]; simpl; [|discriminate].
  destruct (PemToPublicKey (Pem r)) as [k'|] eqn:Hd; simpl; [|discriminate].
  intros H; injection H as ->.
  split; [done|]. split; [done|]. split; [done|]. split; [by exists r|done].
Qed.

(** A negative entry with a positive TTL stops short-circuiting once its
    TTL has elapsed: a lookup strictly after its expiry reads the store
    again (when the datastore is reachable). *)
Theorem GetPublicKey_after_expiry (config_obj : Config) (client_id : string)
  (c : TTLCache.Cache) (st : DataStore) (t0 t : Z) :
  0 < TTLCache.ttl c -> t0 + TTLCache.ttl c < t -> st.(db_ok) = true ->
  (snd (GetPublicKey config_obj client_id
          (mk_world (TTLCache.Set_ client_id t0 c) st t))).(store).(reads)
  = S st.(reads).
Proof.
  intros Hp Ht Hdb.
  assert (Hl : TTLCache.live client_id t (TTLCache.Set_ client_id t0 c) = false).
  { unfold TTLCache.live, TTLCache.Set_; simpl. rewrite lookup_insert_eq.
    unfold TTLCache.new_item, TTLCache.touch, TTLCache.expired; simpl.
    rewrite (proj2 (Z.ltb_lt 0 _) Hp); simpl.
    rewrite (proj2 (Z.leb_gt _ 0) Hp), (proj2 (Z.ltb_lt _ _) Ht). done. }
  rewrite (GetPublicKey_miss config_obj client_id
             (mk_world (TTLCache.Set_ client_id t0 c) st t) Hl).
  simpl. rewrite Hdb; simpl. unfold GetSubject.
  destruct (read_ok st); simpl; [|done].
  destruct (subjects st !! ClientPathKey client_id) as [r|]; simpl; [|done].
  destruct (PemToPublicKey (Pem r)); done.
Qed.

Lemma GetPublicKey_settings (config_obj : Config) (client_id : string) (w : World) :
  TTLCache.ttl (snd (GetPublicKey config_obj client_id w)).(negative_lru) =
    TTLCache.ttl w.(negative_lru) /\
  TTLCache.skip_ttl_extension (snd (GetPublicKey config_obj client_id w)).(negative_lru) =
    TTLCache.skip_ttl_extension w.(negative_lru).
Proof.
  unfold GetPublicKey.
  pose proof (Get_settings client_id (now w) (negative_lru w)) as [Ht Hs].
  destruct (TTLCache.Get client_id (now w) (negative_lru w)) as [hit lru].
  simpl in Ht, Hs.
  destruct hit; simpl; [split; assumption|].
  destruct (db_ok (store w)); simpl; [|split; assumption].
  unfold GetSubject.
  destruct (read_ok (store w)); simpl;
    [destruct (subjects (store w) !! ClientPathKey client_id) as [r|]; simpl;
     [destruct (PemToPublicKey (Pem r))|]|]; simpl; split; assumption.
Qed.

(** The negative cache's TTL and its extension-on-hit setting are never
    changed by [GetPublicKey], [SetPublicKey] or [DeleteSubject]. *)
Theorem cache_settings_invariant (config_obj : Config) (client_id : string)
  (key : PublicKey) (w : World) :
  let c := w.(negative_lru) in
  let c1 := (snd (GetPublicKey config_obj client_id w)).(negative_lru) in
  let c2 := (snd (SetPublicKey config_obj client_id key w)).(negative_lru) in
  let c3 := (DeleteSubject client_id w).(negative_lru) in
  TTLCache.ttl c1 = TTLCache.ttl c /\
  TTLCache.skip_ttl_extension c1 = TTLCache.skip_ttl_extension c /\
  TTLCache.ttl c2 = TTLCache.ttl c /\
  TTLCache.skip_ttl_extension c2 = TTLCache.skip_ttl_extension c /\
  TTLCache.ttl c3 = TTLCache.ttl c /\
  TTLCache.skip_ttl_extension c3 = TTLCache.skip_ttl_extension c.
Proof.
  simpl. destruct (GetPublicKey_settings config_obj client_id w) as [H1 H2].
  split; [exact H1|]. split; [exact H2|].
  unfold SetPublicKey, SetSubjectWithCompletion, DeleteSubject.
  destruct w as [c st t]; simpl.
  destruct (db_ok st); simpl; [destruct (write_ok st); simpl|]; repeat split.
Qed.


(** A resolver built from an unset or non-negative setting never extends
    a negative entry: a hit leaves the whole world unchanged, so an
    entry's deadline stays the one fixed when it was stored. *)
Theorem GetPublicKey_hit_no_extension :
  (forall config_obj : Config,
     (config_obj.(Defaults) = None \/
      exists d, config_obj.(Defaults) = Some d /\ 0 <= d.(UnauthenticatedLruTimeoutSec)) ->
     TTLCache.skip_ttl_extension (NewServerPublicKeyResolver config_obj) = true) /\
  (forall (config_obj : Config) (client_id : string) (w : World),
     TTLCache.skip_ttl_extension w.(negative_lru) = true ->
     TTLCache.live client_id w.(now) w.(negative_lru) = true ->
     GetPublicKey config_obj client_id w = (None, w)).
Proof.
  split.
  - intros config_obj Hd. unfold NewServerPublicKeyResolver.
    destruct Hd as [-> | (d & -> & Hn)]; [done|].
    rewrite (proj2 (Z.ltb_ge _ 0) Hn).
    destruct (0 <? UnauthenticatedLruTimeoutSec d); done.
  - intros config_obj client_id [c st t] Hs Hl. simpl in *.
    unfold GetPublicKey; simpl. unfold TTLCache.Get, TTLCache.live in *.
    destruct (TTLCache.items c !! client_id) as [it|]; [|discriminate].
    destruct (TTLCache.expired t it); [discriminate|]. rewrite Hs.
    destruct c; done.
Qed.

(** With a negative setting the cache has TTL 0, and in a cache whose TTL
    is not positive a stored negative entry never expires: every later
    [GetPublicKey] of that client returns [(nil, false)] without reading
    the store. *)
Theorem negative_entries_never_expire :
  (forall (config_obj : Config) (d : DefaultsCfg),
     config_obj.(Defaults) = Some d -> d.(UnauthenticatedLruTimeoutSec) < 0 ->
     TTLCache.ttl (NewServerPublicKeyResolver config_obj) = 0) /\
  (forall (config_obj : Config) (client_id : string) (c : TTLCache.Cache)
          (st : DataStore) (t0 t : Z),
     TTLCache.ttl c <= 0 ->
     fst (GetPublicKey config_obj client_id
            (mk_world (TTLCache.Set_ client_id t0 c) st t)) = None /\
     (snd (GetPublicKey config_obj client_id
             (mk_world (TTLCache.Set_ client_id t0 c) st t))).(store) = st).
Proof.
  split.
  - intros config_obj d Hd Hn. unfold NewServerPublicKeyResolver. rewrite Hd.
    by rewrite (proj2 (Z.ltb_lt _ 0) Hn).
  - intros config_obj client_id c st t0 t Hc.
    apply (GetPublicKey_hit config_obj client_id
             (mk_world (TTLCache.Set_ client_id t0 c) st t)).
    simpl. apply live_after_Set. lia.
Qed.

(** A successful [SetPublicKey] writes only the client's own record, with
    the key's PEM and [EnrollTime] the current Unix second, and removes
    only the client's own negative entry; no store read is made. *)
Theorem SetPublicKey_frame (config_obj : Config) (client_id : string)
  (key : PublicKey) (w w1 : World) :
  SetPublicKey config_obj client_id key w = (None, w1) ->
  w1.(store).(subjects) !! ClientPathKey client_id =
    Some (mk_record (PublicKeyToPem key) (w.(now) / Second)) /\
  (forall path, path <> ClientPathKey client_id ->
     w1.(store).(subjects) !! path = w.(store).(subjects) !! path) /\
  w1.(negative_lru).(TTLCache.items) = delete client_id w.(negative_lru).(TTLCache.items) /\
  w1.(store).(reads) = w.(store).(reads).
Proof.
  intros Hs. destruct (SetPublicKey_ok _ _ _ _ _ Hs) as (_ & _ & ->). simpl.
  split; [by rewrite lookup_insert_eq|].
  split; [intros p Hp; by rewrite lookup_insert_ne by congruence|]. done.
Qed.

(** An enrollment rejected before the bind (unparseable request, non-RSA
    key or mismatching common name) changes nothing at all. *)
Theorem AddCertificateRequest_rejection_no_effect (config_obj : Config)
  (csr_pem : string) (w : World) :
  let r := AddCertificateRequest config_obj csr_pem w in
  snd (fst r) = Some ErrParseCSR \/ snd (fst r) = Some ErrNotRSA \/
  snd (fst r) = Some ErrInvalidCSR ->
  snd r = w.
Proof.
  simpl. unfold AddCertificateRequest.
  destruct (ParseX509CSRFromPemStr csr_pem) as [[key cn]|]; simpl; [|done].
  destruct key as [k| | | |]; simpl; try done.
  destruct (String.eqb cn (ClientIDFromPublicKey k)); simpl; [|done].
  destruct (SetPublicKey config_obj (ClientIdFromConfigObj cn config_obj) k w)
    as [[e|] w1] eqn:Hs; simpl.
  - pose proof (SetPublicKey_error_code config_obj (ClientIdFromConfigObj cn config_obj)
                  k w e) as He. rewrite Hs in He. simpl in He.
    destruct (He eq_refl) as [-> | ->];
      intros [H | [H | H]]; discriminate.
  - intros [H | [H | H]]; discriminate.
Qed.

Section EnrollResolve.

Hypothesis pem_roundtrip' : forall k, PemToPublicKey (PublicKeyToPem k) = Some k.

(** After a successful enrollment, looking up the returned id (at any
    later time, before other operations) finds the key the request
    presented. *)
Theorem AddCertificateRequest_then_GetPublicKey (config_obj : Config)
  (csr_pem : string) (w : World) (t : Z) :
  w.(store).(read_ok) = true ->
  let '((cid, err), w') := AddCertificateRequest config_obj csr_pem w in
  err = None ->
  exists csr k,
    ParseX509CSRFromPemStr csr_pem = Some csr /\ csr.(CsrKey) = RSAPublicKey k /\
    fst (GetPublicKey config_obj cid (mk_world w'.(negative_lru) w'.(store) t)) = Some k.
Proof.
  intros Hr. unfold AddCertificateRequest.
  destruct (ParseX509CSRFromPemStr csr_pem) as [[key cn]|] eqn:Hp; [|discriminate].
  simpl. destruct key as [k| | | |]; try discriminate.
  destruct (String.eqb cn (ClientIDFromPublicKey k)); simpl; [|discriminate].
  destruct (SetPublicKey config_obj (ClientIdFromConfigObj cn config_obj) k w)
    as [[e|] w1] eqn:Hs; [discriminate|].
  intros _. exists (mk_csr (RSAPublicKey k) cn), k.
  split; [done|]. split; [done|].
  by rewrite (GetPublicKey_after_SetPublicKey pem_roundtrip' _ _ _ _ _ t Hr Hs).
Qed.

End EnrollResolve.

End Manager.


(** ** The deletion callback *)

(** C8: the callback evicts the client id when the row carries a string
    "ClientId", ignores rows without one (or with a non-string value), and
    always returns a nil error, so no row ends the subscription. *)
Theorem ClientDeleteCallback_spec (row : Dict) (w : World) :
  fst (ClientDeleteCallback row w) = None /\
  (forall client_id : string, Dict_Get row "ClientId" = Some (VString client_id) ->
     snd (ClientDeleteCallback row w) = DeleteSubject client_id w) /\
  (Dict_Get row "ClientId" = None -> snd (ClientDeleteCallback row w) = w) /\
  (Dict_Get row "ClientId" = Some VOther -> snd (ClientDeleteCallback row w) = w).
Proof.
  unfold ClientDeleteCallback, Dict_GetString, ServerCryptoManager_DeleteSubject.
  destruct (Dict_Get row "ClientId") as [[s|]|]; simpl.
  - split; [done|]. split; [intros c Hc; by injection Hc as ->|].
    split; discriminate.
  - split; [done|]. split; [discriminate|]. split; [discriminate|done].
  - split; [done|]. split; [discriminate|]. split; [done|discriminate].
Qed.

(** ** The TTL chosen by [NewServerPublicKeyResolver] *)

(** Unset or zero settings give 10 s, a positive setting [n] gives [n] s
    (as long as [n * time.Second] fits a Duration), both with extension on
    hit disabled; a negative setting leaves the cache exactly as
    [ttlcache.NewCache] made it (TTL 0, extension on hit enabled). *)
Lemma NewServerPublicKeyResolver_ttl (config_obj : Config) :
  ((config_obj.(Defaults) = None \/
    exists d, config_obj.(Defaults) = Some d /\ d.(UnauthenticatedLruTimeoutSec) = 0) ->
   (NewServerPublicKeyResolver config_obj).(TTLCache.ttl) = 10 * Second) /\
  (forall d, config_obj.(Defaults) = Some d ->
     0 < d.(UnauthenticatedLruTimeoutSec) ->
     d.(UnauthenticatedLruTimeoutSec) * Second < 2 ^ 63 ->
     (NewServerPublicKeyResolver config_obj).(TTLCache.ttl) =
       d.(UnauthenticatedLruTimeoutSec) * Second) /\
  (forall d, config_obj.(Defaults) = Some d ->
     d.(UnauthenticatedLruTimeoutSec) < 0 ->
     NewServerPublicKeyResolver config_obj = TTLCache.NewCache).
Proof.
  unfold NewServerPublicKeyResolver.
  destruct (Defaults config_obj) as [[n]|]; simpl.
  - split.
    + intros [Hd | (d & Hd & Hn)]; [discriminate|].
      injection Hd as <-. simpl in Hn. subst n. done.
    + split.
      * intros d Hd Hp Hb. injection Hd as <-. simpl in *.
        rewrite (proj2 (Z.ltb_ge n 0)) by lia. rewrite (proj2 (Z.ltb_lt 0 n)) by lia.
        simpl. unfold wrap64.
        rewrite Z.mod_small by (unfold Second in *; lia). lia.
      * intros d Hd Hn. injection Hd as <-. simpl in Hn.
        by rewrite (proj2 (Z.ltb_lt n 0)) by lia.
  - split; [done|]. split; intros d Hd; discriminate.
Qed.

(** ** Scenarios over the concrete collaborators *)

Abbreviation Resolve :=
  (GetPublicKey Demo.PublicKey Demo.PemToPublicKey Demo.ClientPathKey).
Abbreviation Bind :=
  (SetPublicKey Demo.PublicKey Demo.PublicKeyToPem Demo.ClientPathKey).
Abbreviation Enroll :=
  (AddCertificateRequest Demo.PublicKey Demo.PublicKeyToPem
     Demo.ClientIDFromPublicKey Demo.ClientIdFromConfigObj Demo.ClientPathKey
     Demo.ParseX509CSRFromPemStr).

Example enroll_ok :
  fst (Enroll (Demo.config 0) "csr:abcd" (Demo.fresh_world 0)) = ("C.abcd", None).
Proof. reflexivity. Qed.

Example enroll_forged :
  fst (Enroll (Demo.config 0) "csr:forged" (Demo.fresh_world 0))
  = ("", Some ErrInvalidCSR).
Proof. reflexivity. Qed.

Example enroll_ecdsa :
  fst (Enroll (Demo.config 0) "csr:ecdsa" (Demo.fresh_world 0)) = ("", Some ErrNotRSA).
Proof. reflexivity. Qed.

Example enroll_then_resolve :
  fst (Resolve (Demo.config 0) "C.abcd"
         (snd (Enroll (Demo.config 0) "csr:abcd" (Demo.fresh_world 0))))
  = Some "abcd".
Proof. reflexivity. Qed.

Lemma Demo_pem_roundtrip (k : Demo.PublicKey) :
  Demo.PemToPublicKey (Demo.PublicKeyToPem k) = Some k.
Proof. reflexivity. Qed.

(** C2: with [UnauthenticatedLruTimeoutSec = -1] the negative cache is not
    disabled: a first lookup of an unknown client reads the store and
    stores a negative entry without expiry, and a lookup more than eleven
    days later is still answered from the cache, with no second store
    read. *)
Theorem negative_setting_still_caches :
  let config_obj := Demo.config (-1) in
  let w1 := snd (Resolve config_obj "C.x" (Demo.fresh_world (-1))) in
  let r2 := Resolve config_obj "C.x"
              (mk_world w1.(negative_lru) w1.(store) (10 ^ 15)) in
  w1.(store).(reads) = 1%nat /\ fst r2 = None /\ (snd r2).(store).(reads) = 1%nat.
Proof. vm_compute. split; [reflexivity|split; reflexivity]. Qed.

(** C1: a parseable RSA request whose common name matches its key still
    fails when the store write fails. *)
Lemma enroll_store_failure_counterexample :
  Demo.ParseX509CSRFromPemStr "csr:abcd" = Some (mk_csr (RSAPublicKey "abcd") "C.abcd") /\
  "C.abcd" = Demo.ClientIDFromPublicKey "abcd" /\
  fst (Enroll (Demo.config 0) "csr:abcd"
         (mk_world (NewServerPublicKeyResolver (Demo.config 0))
            (mk_store true true false ∅ 0) 0))
  = ("", Some ErrSetSubject).
Proof. split; [reflexivity|split; reflexivity]. Qed.

(** C3: an enrollment whose store write fails still removes the live
    negative entry of the client, so a following lookup reads the store
    where it would have been short-circuited before the call. *)
Lemma failed_bind_evicts_counterexample :
  let w0 := mk_world (TTLCache.Set_ "C.abcd" 0 (NewServerPublicKeyResolver (Demo.config 0)))
              (mk_store true true false ∅ 0) 0 in
  let r := Enroll (Demo.config 0) "csr:abcd" w0 in
  snd (fst r) = Some ErrSetSubject /\
  (snd r).(store) = w0.(store) /\
  TTLCache.live "C.abcd" 0 w0.(negative_lru) = true /\
  TTLCache.live "C.abcd" 0 (snd r).(negative_lru) = false /\
  (snd (Resolve (Demo.config 0) "C.abcd" w0)).(store).(reads) = 0%nat /\
  (snd (Resolve (Demo.config 0) "C.abcd" (snd r))).(store).(reads) = 1%nat.
Proof. vm_compute. repeat split. Qed.

(** ** The Sigma rule evaluator *)

Module SigmaFacts.

Section Facts.

Context {Event Search SearchExpr AggregationExpr Lambda Correlator Any Row : Type}.
Context {SearchError CorrelationError : Type}.

Variable evaluateSearch : Search -> Event -> bool + SearchError.
Variable evaluateSearchExpression : SearchExpr -> gmap string bool -> bool.
Variable Correlator_Match :
  Correlator -> Sigma.VQLRuleEvaluator Search SearchExpr AggregationExpr Lambda Correlator Any ->
  Event -> Sigma.Result Event + Sigma.SigmaError SearchError CorrelationError.

Local Abbreviation Evaluator :=
  (Sigma.VQLRuleEvaluator Search SearchExpr AggregationExpr Lambda Correlator Any).
Local Abbreviation Cond := (Sigma.Condition SearchExpr AggregationExpr).
Local Abbreviation searches :=
  (Sigma.evaluate_searches Event Search SearchError CorrelationError evaluateSearch).
Local Abbreviation conditions :=
  (Sigma.evaluate_conditions Event SearchExpr AggregationExpr SearchError CorrelationError
     evaluateSearchExpression).
Local Abbreviation matches :=
  (Sigma.condition_matches SearchExpr AggregationExpr evaluateSearchExpression).
Local Abbreviation Match :=
  (Sigma.Match Event Search SearchExpr AggregationExpr Lambda Correlator Any
     SearchError CorrelationError evaluateSearch evaluateSearchExpression Correlator_Match).
Local Abbreviation searches_of self :=
  (Sigma.Searches _ _ _ (Sigma.RuleDetection _ _ _ (Sigma.EvalRule _ _ _ _ _ _ self))).
Local Abbreviation conditions_of self :=
  (Sigma.Conditions _ _ _ (Sigma.RuleDetection _ _ _ (Sigma.EvalRule _ _ _ _ _ _ self))).
Local Abbreviation correlator_of self := (Sigma.EvalCorrelator _ _ _ _ _ _ self).
Local Abbreviation search_ok ev :=
  (fun p : string * Search => exists b, evaluateSearch p.2 ev = inl b).

Lemma insert_at_length {A} (l1 l2 : list A) (x y : A) :
  <[length l1 := x]> (l1 ++ y :: l2) = l1 ++ x :: l2.
Proof.
  rewrite <- (Nat.add_0_r (length l1)), insert_app_r. done.
Qed.

(** The condition loop, from index [length l1] over a tail of [false]s:
    each condition's slot becomes [condition_matches], and the match flag
    is raised iff one condition matches. *)
Lemma evaluate_conditions_closed (ev : Event) (sr : gmap string bool)
  (cs : list Cond) : forall (l1 : list bool) (m : bool),
  conditions ev sr (length l1) cs m (l1 ++ replicate (length cs) false) =
  inl (m || existsb (matches sr) cs, l1 ++ map (matches sr) cs).
Proof.
  induction cs as [|c cs IH]; intros l1 m; simpl.
  - by rewrite orb_false_r, app_nil_r.
  - rewrite !insert_at_length.
    change (matches sr c) with
      (evaluateSearchExpression (Sigma.CondSearch _ _ c) sr &&
       match Sigma.CondAggregation _ _ c with None => true | Some _ => false end).
    destruct (evaluateSearchExpression (Sigma.CondSearch _ _ c) sr); simpl.
    + destruct (Sigma.CondAggregation _ _ c) as [agg|]; simpl.
      * replace (l1 ++ false :: replicate (length cs) false)
          with ((l1 ++ [false]) ++ replicate (length cs) false)
          by (rewrite <- app_assoc; done).
        replace (S (length l1)) with (length (l1 ++ [false]))
          by (rewrite length_app; simpl; lia).
        rewrite IH, <- app_assoc. done.
      * replace (l1 ++ true :: replicate (length cs) false)
          with ((l1 ++ [true]) ++ replicate (length cs) false)
          by (rewrite <- app_assoc; done).
        replace (S (length l1)) with (length (l1 ++ [true]))
          by (rewrite length_app; simpl; lia).
        rewrite IH, <- app_assoc, orb_true_r. done.
    + replace (l1 ++ false :: replicate (length cs) false)
        with ((l1 ++ [false]) ++ replicate (length cs) false)
        by (rewrite <- app_assoc; done).
      replace (S (length l1)) with (length (l1 ++ [false]))
        by (rewrite length_app; simpl; lia).
      rewrite IH, <- app_assoc. done.
Qed.

Lemma evaluate_searches_error (ev : Event) (ss : list (string * Search)) :
  forall (acc : gmap string bool) e,
  searches ev ss acc = inr e ->
  exists l1 identifier search l2 err,
    ss = l1 ++ (identifier, search) :: l2 /\ Forall (search_ok ev) l1 /\
    evaluateSearch search ev = inr err /\
    e = Sigma.ErrEvaluatingSearch SearchError CorrelationError identifier err.
Proof.
  induction ss as [|[i s] ss IH]; intros acc e; simpl; [discriminate|].
  destruct (evaluateSearch s ev) as [b|err] eqn:Hs.
  - intros H. destruct (IH _ _ H) as (l1 & i' & s' & l2 & err & -> & Hf & He & ->).
    exists ((i, s) :: l1), i', s', l2, err.
    split; [done|]. split; [|done]. constructor; [by exists b|done].
  - intros H. injection H as <-. exists [], i, s, ss, err. done.
Qed.

Lemma evaluate_searches_first_error (ev : Event) (l1 l2 : list (string * Search))
  (identifier : string) (search : Search) (err : SearchError) :
  Forall (search_ok ev) l1 -> evaluateSearch search ev = inr err ->
  forall acc, searches ev (l1 ++ (identifier, search) :: l2) acc =
    inr (Sigma.ErrEvaluatingSearch SearchError CorrelationError identifier err).
Proof.
  intros Hf He. induction Hf as [|[i s] l1 [b Hb] Hf IH]; intros acc; simpl.
  - by rewrite He.
  - simpl in Hb. rewrite Hb. apply IH.
Qed.

Lemma evaluate_searches_ok (ev : Event) (ss : list (string * Search)) :
  forall acc : gmap string bool,
  (exists sr, searches ev ss acc = inl sr) <-> Forall (search_ok ev) ss.
Proof.
  induction ss as [|[i s] ss IH]; intros acc; simpl.
  - split; [constructor|eauto].
  - destruct (evaluateSearch s ev) as [b|err] eqn:Hs.
    + rewrite IH. split; [intros H; constructor; [by exists b|done]|].
      intros H. by inversion H.
    + split; [intros [sr H]; discriminate|].
      intros H. inversion H as [|? ? [b Hb] _]. simpl in Hb. congruence.
Qed.

Lemma evaluate_searches_lookup (ev : Event) (ss : list (string * Search)) :
  NoDup (ss.*1) -> forall (acc sr : gmap string bool),
  searches ev ss acc = inl sr ->
  forall identifier b, sr !! identifier = Some b <->
    (exists search, In (identifier, search) ss /\ evaluateSearch search ev = inl b) \/
    ((identifier ∉ ss.*1) /\ acc !! identifier = Some b).
Proof.
  induction ss as [|[i s] ss IH]; intros Hnd acc sr; simpl.
  - intros H. injection H as <-. intros identifier b.
    split; [intros H; right; split; [set_solver|done]|].
    intros [(search & [] & _)|[_ H]]; done.
  - apply NoDup_cons in Hnd as [Hni Hnd].
    destruct (evaluateSearch s ev) as [r|err] eqn:Hs; [|discriminate].
    intros H identifier b. rewrite (IH Hnd _ _ H identifier b).
    destruct (decide (identifier = i)) as [->|Hne].
    + rewrite lookup_insert_eq. split.
      * intros [(search & Hin & _)|[_ Hr]].
        { exfalso. apply Hni. apply list_elem_of_In, in_map_iff.
          by exists (i, search). }
        injection Hr as ->. left. exists s. split; [by left|done].
      * intros [(search & [Heq|Hin] & Hb)|[Hn _]].
        { injection Heq as ->. right. split; [done|congruence]. }
        { exfalso. apply Hni. apply list_elem_of_In, in_map_iff.
          by exists (i, search). }
        { exfalso. apply Hn. by left. }
    + rewrite lookup_insert_ne by congruence. split.
      * intros [(search & Hin & Hb)|[Hn Hr]].
        { left. exists search. split; [by right|done]. }
        right. split; [|done]. rewrite elem_of_cons. intros [?|?]; done.
      * intros [(search & [Heq|Hin] & Hb)|[Hn Hr]].
        { injection Heq as -> ->. done. }
        { left. by exists search. }
        right. split; [|done]. intros Hin. apply Hn. by right.
Qed.

(** When every search of the rule evaluates, [Match] has a closed form:
    [ConditionResults] holds, for each condition in order, whether its
    search expression holds with no aggregation; [Match] is set iff one
    condition does; no correlation hit is reported; and the correlator is
    consulted exactly when the rule matched. *)
Theorem Match_outcome (self : Evaluator) (ev : Event) (sr : gmap string bool) :
  searches ev (searches_of self) ∅ = inl sr ->
  let conds := conditions_of self in
  let m := existsb (matches sr) conds in
  let result := Sigma.mk_result Event m sr (map (matches sr) conds) [] in
  Match self ev =
    match correlator_of self with
    | Some c => if m then Correlator_Match c self ev else inl result
    | None => inl result
    end.
Proof.
  intros Hs. unfold Sigma.Match. rewrite Hs.
  pose proof (evaluate_conditions_closed ev sr
                (Sigma.Conditions _ _ _ (Sigma.RuleDetection _ _ _ (Sigma.EvalRule _ _ _ _ _ _ self)))
                [] false) as Hc.
  simpl in Hc. rewrite Hc. done.
Qed.

(** [Match] fails only with the error of the first search (in iteration
    order) that fails, wrapped with its identifier, or with the
    correlator's error; the condition loop never fails. *)
Theorem Match_error_sources (self : Evaluator) (ev : Event) e :
  Match self ev = inr e ->
  (exists l1 identifier search l2 err,
     searches_of self =
       l1 ++ (identifier, search) :: l2 /\
     Forall (search_ok ev) l1 /\ evaluateSearch search ev = inr err /\
     e = Sigma.ErrEvaluatingSearch SearchError CorrelationError identifier err) \/
  (exists c, correlator_of self = Some c /\ Correlator_Match c self ev = inr e).
Proof.
  unfold Sigma.Match.
  destruct (searches ev _ ∅) as [sr|err] eqn:Hs.
  - pose proof (evaluate_conditions_closed ev sr
                  (Sigma.Conditions _ _ _ (Sigma.RuleDetection _ _ _ (Sigma.EvalRule _ _ _ _ _ _ self)))
                  [] false) as Hc.
    simpl in Hc. rewrite Hc.
    destruct (Sigma.EvalCorrelator _ _ _ _ _ _ self) as [c|];
      [destruct (existsb _ _)|]; intros H; try discriminate.
    right. by exists c.
  - intros H. injection H as <-. left. by apply (evaluate_searches_error ev _ ∅).
Qed.

(** Conversely, a failing search ends [Match] with its wrapped error as
    soon as every search visited before it has evaluated. *)
Theorem Match_search_error (self : Evaluator) (ev : Event)
  (l1 l2 : list (string * Search)) (identifier : string) (search : Search)
  (err : SearchError) :
  searches_of self =
    l1 ++ (identifier, search) :: l2 ->
  Forall (search_ok ev) l1 -> evaluateSearch search ev = inr err ->
  Match self ev = inr (Sigma.ErrEvaluatingSearch SearchError CorrelationError identifier err).
Proof.
  intros Hss Hf He. unfold Sigma.Match. rewrite Hss.
  by rewrite (evaluate_searches_first_error ev l1 l2 identifier search err Hf He).
Qed.

(** The search loop succeeds iff every search evaluates, and then (the
    identifiers of a Go map being distinct) [SearchResults] maps exactly
    the rule's identifiers, each to its search's result. *)
Theorem Match_search_results (ev : Event) (ss : list (string * Search)) :
  ((exists sr, searches ev ss ∅ = inl sr) <-> Forall (search_ok ev) ss) /\
  (NoDup (ss.*1) -> forall sr, searches ev ss ∅ = inl sr ->
   forall identifier b, sr !! identifier = Some b <->
     exists search, In (identifier, search) ss /\ evaluateSearch search ev = inl b).
Proof.
  split; [apply evaluate_searches_ok|].
  intros Hnd sr Hs identifier b.
  rewrite (evaluate_searches_lookup ev ss Hnd ∅ sr Hs identifier b).
  rewrite lookup_empty. split; [|by left].
  intros [H|[_ H]]; [done|discriminate].
Qed.

(** A rule whose conditions all carry an aggregation never matches (the
    aggregation evaluator always answers [false]), so its correlator is
    never consulted and every condition result is [false]. *)
Theorem Match_aggregations_never_match (self : Evaluator) (ev : Event)
  (sr : gmap string bool) :
  searches ev (searches_of self) ∅ = inl sr ->
  Forall (fun c : Cond => Sigma.CondAggregation _ _ c <> None)
    (conditions_of self) ->
  Match self ev =
    inl (Sigma.mk_result Event false sr
           (replicate (length (conditions_of self))
              false) []).
Proof.
  intros Hs Ha. unfold Sigma.Match. rewrite Hs.
  pose proof (evaluate_conditions_closed ev sr
                (Sigma.Conditions _ _ _ (Sigma.RuleDetection _ _ _ (Sigma.EvalRule _ _ _ _ _ _ self)))
                [] false) as Hc.
  simpl in Hc. rewrite Hc.
  assert (Hf : forall cs : list Cond, Forall (fun c : Cond => Sigma.CondAggregation _ _ c <> None) cs ->
            existsb (matches sr) cs = false /\ map (matches sr) cs = replicate (length cs) false).
  { intros cs Hcs. induction Hcs as [|c cs Hc1 _ [IH1 IH2]]; [done|].
    simpl. change (matches sr c) with
      (evaluateSearchExpression (Sigma.CondSearch _ _ c) sr &&
       match Sigma.CondAggregation _ _ c with None => true | Some _ => false end).
    destruct (Sigma.CondAggregation _ _ c); [|done].
    rewrite andb_false_r. simpl. by rewrite IH1, IH2. }
  destruct (Hf _ Ha) as [-> ->].
  destruct (Sigma.EvalCorrelator _ _ _ _ _ _ self); done.
Qed.

(** An evaluator made by [NewVQLRuleEvaluator] has no lambda and no
    correlator: [MaybeEnrichWithVQL] returns the event itself, [Match]
    never reports correlation hits, and it fails only on a search error. *)
Theorem NewVQLRuleEvaluator_plain
  (Event_Copy : Event -> Event) (Event_Set : string -> option Any -> Event -> Event)
  (Lambda_Reduce : Lambda -> option (list (string * Any)) -> Event -> Row)
  (GetMembers : Row -> list string) (Associative : Row -> string -> option Any)
  (rule : Sigma.Rule Search SearchExpr AggregationExpr)
  (fms : list (Sigma.FieldMappingRecord Lambda)) :
  let self := Sigma.NewVQLRuleEvaluator Search SearchExpr AggregationExpr Lambda
                Correlator Any rule fms in
  (forall ev, Sigma.MaybeEnrichWithVQL Event Search SearchExpr AggregationExpr Lambda
               Correlator Any Row Event_Copy Event_Set Lambda_Reduce GetMembers
               Associative self ev = ev) /\
  (forall ev r, Match self ev = inl r -> Sigma.CorrelationHits _ r = []) /\
  (forall ev e, Match self ev = inr e ->
     exists identifier err,
       e = Sigma.ErrEvaluatingSearch SearchError CorrelationError identifier err).
Proof.
  simpl. split; [done|].
  split; intros ev x; unfold Sigma.Match; simpl;
    destruct (searches ev _ ∅) as [sr|err] eqn:Hs;
    intros H; try discriminate;
    try (pose proof (evaluate_conditions_closed ev sr
                       (Sigma.Conditions _ _ _ (Sigma.RuleDetection _ _ _ rule)) [] false) as Hc;
         simpl in Hc; rewrite Hc in H; try discriminate).
  - by injection H as <-.
  - injection H as <-.
    destruct (evaluate_searches_error ev _ ∅ err Hs) as (? & i & ? & ? & er & _ & _ & _ & ->).
    by exists i, er.
Qed.

Section Enrich.

Variable Event_Copy : Event -> Event.
Variable Event_Set : string -> option Any -> Event -> Event.
Variable Lambda_Reduce : Lambda -> option (list (string * Any)) -> Event -> Row.
Variable GetMembers : Row -> list string.
Variable Associative : Row -> string -> option Any.
(** Reading a field of an event. *)
Variable Event_Get : Event -> string -> option Any.

Lemma enrich_fold (row : Row) (k : string) (ks : list string) :
  (forall k v e, Event_Get (Event_Set k v e) k = v) ->
  (forall k k' v e, k' <> k -> Event_Get (Event_Set k' v e) k = Event_Get e k) ->
  forall e, Event_Get (fold_left (fun e k => Event_Set k (Associative row k) e) ks e) k =
    if decide (k ∈ ks) then Associative row k else Event_Get e k.
Proof.
  intros Heq Hne. induction ks as [|k' ks IH]; intros e; simpl.
  - destruct (decide (k ∈ [])) as [H|]; [set_solver|done].
  - rewrite IH. destruct (decide (k ∈ ks)) as [Hin|Hnin].
    + destruct (decide (k ∈ k' :: ks)) as [|H]; [done|set_solver].
    + destruct (decide (k = k')) as [->|Hk].
      * rewrite Heq. destruct (decide (k' ∈ k' :: ks)) as [|H]; [done|set_solver].
      * rewrite Hne by congruence.
        destruct (decide (k ∈ k' :: ks)) as [H|]; [|done].
        apply elem_of_cons in H as [H|H]; done.
Qed.

(** With a lambda, [MaybeEnrichWithVQL] works on a copy of the event:
    every member of the row the lambda returns is set to the row's value
    (so the row overrides fields), and every other field is the copy's.
    This holds for any event type whose [Set] behaves as a map update. *)
Theorem MaybeEnrichWithVQL_fields
  (Hset_eq : forall k v e, Event_Get (Event_Set k v e) k = v)
  (Hset_ne : forall k k' v e, k' <> k -> Event_Get (Event_Set k' v e) k = Event_Get e k)
  (self : Sigma.VQLRuleEvaluator Search SearchExpr AggregationExpr Lambda Correlator Any)
  (l : Lambda) (ev : Event) (k : string) :
  Sigma.lambda _ _ _ _ _ _ self = Some l ->
  let row := Lambda_Reduce l (Sigma.lambda_args _ _ _ _ _ _ self) ev in
  Event_Get (Sigma.MaybeEnrichWithVQL Event Search SearchExpr AggregationExpr Lambda
               Correlator Any Row Event_Copy Event_Set Lambda_Reduce GetMembers
               Associative self ev) k =
    if decide (k ∈ GetMembers row) then Associative row k else Event_Get (Event_Copy ev) k.
Proof.
  intros Hl. unfold Sigma.MaybeEnrichWithVQL. rewrite Hl.
  by apply enrich_fold.
Qed.

End Enrich.

End Facts.

End SigmaFacts.

(** [SigmaDemo]'s events behave as maps under [Set]. *)
Lemma SigmaDemo_Event_Set_eq (k : string) (v : option nat) (e : SigmaDemo.Event) :
  SigmaDemo.Event_Get (SigmaDemo.Event_Set k v e) k = v.
Proof.
  unfold SigmaDemo.Event_Get, SigmaDemo.Event_Set.
  destruct v; [apply lookup_insert_eq|apply lookup_delete_eq].
Qed.

Lemma SigmaDemo_Event_Set_ne (k k' : string) (v : option nat) (e : SigmaDemo.Event) :
  k' <> k -> SigmaDemo.Event_Get (SigmaDemo.Event_Set k' v e) k = SigmaDemo.Event_Get e k.
Proof.
  intros Hne. unfold SigmaDemo.Event_Get, SigmaDemo.Event_Set.
  destruct v; [by apply lookup_insert_ne|by apply lookup_delete_ne].
Qed.

(** ** Witnesses: each theorem applied at a concrete input *)

Lemma GetPublicKey_read_failure_cached_witness :
  TTLCache.live "C.x" 0 (Demo.fresh_world 0).(negative_lru) = false /\
  fst (Resolve (Demo.config 0) "C.x" (Demo.fresh_world 0)) = None /\
  (snd (Resolve (Demo.config 0) "C.x" (Demo.fresh_world 0))).(store).(reads) = 1%nat.
Proof.
  split; [reflexivity|].
  pose proof (GetPublicKey_read_failure_cached Demo.PublicKey Demo.PemToPublicKey
                Demo.ClientPathKey (Demo.config 0) "C.x" (Demo.fresh_world 0)
                eq_refl eq_refl (or_intror (or_introl eq_refl))) as H.
  destruct (Resolve (Demo.config 0) "C.x" (Demo.fresh_world 0)) as [res w'].
  destruct H as (Hres & _ & _ & _ & Hreads). simpl. split; [exact Hres|exact Hreads].
Defined.

Lemma GetPublicKey_negative_hit_witness :
  TTLCache.live "C.x" 0 (Demo.fresh_world 0).(negative_lru) = false /\
  fst (Resolve (Demo.config 0) "C.x" (Demo.fresh_world 0)) = None /\
  fst (Resolve (Demo.config 0) "C.x"
         (mk_world (snd (Resolve (Demo.config 0) "C.x" (Demo.fresh_world 0))).(negative_lru)
            Demo.empty_store (5 * Second))) = None.
Proof.
  split; [reflexivity|]. split; [reflexivity|].
  apply (proj2 (GetPublicKey_negative_hit Demo.PublicKey Demo.PemToPublicKey
                  Demo.ClientPathKey (Demo.config 0) "C.x")
           (Demo.fresh_world 0) Demo.empty_store (5 * Second));
    [reflexivity|reflexivity|reflexivity|].
  intros _. vm_compute. discriminate.
Defined.

Lemma GetPublicKey_getdb_failure_not_cached_witness :
  let w := mk_world (NewServerPublicKeyResolver (Demo.config 0))
             (mk_store false true true ∅ 0) 0 in
  Resolve (Demo.config 0) "C.x" w = (None, w) /\
  (snd (Resolve (Demo.config 0) "C.x"
          (mk_world w.(negative_lru) Demo.empty_store 0))).(store).(reads) = 1%nat.
Proof.
  intros w.
  destruct (GetPublicKey_getdb_failure_not_cached Demo.PublicKey Demo.PemToPublicKey
              Demo.ClientPathKey (Demo.config 0) "C.x" w eq_refl eq_refl) as [H1 H2].
  split; [exact H1|].
  exact (H2 Demo.empty_store 0 eq_refl (Z.le_refl 0)).
Defined.

Lemma SetPublicKey_then_GetPublicKey_witness :
  fst (Bind (Demo.config 0) "C.abcd" "abcd" (Demo.fresh_world 0)) = None /\
  fst (Resolve (Demo.config 0) "C.abcd"
         (mk_world (snd (Bind (Demo.config 0) "C.abcd" "abcd" (Demo.fresh_world 0))).(negative_lru)
            (snd (Bind (Demo.config 0) "C.abcd" "abcd" (Demo.fresh_world 0))).(store)
            7)) = Some "abcd".
Proof.
  split; [reflexivity|].
  apply (proj1 (SetPublicKey_then_GetPublicKey Demo.PublicKey Demo.PublicKeyToPem
                  Demo.PemToPublicKey Demo.ClientPathKey Demo_pem_roundtrip
                  (Demo.config 0) "C.abcd")
           "abcd" (Demo.fresh_world 0)); reflexivity.
Defined.

Lemma DeleteSubject_evicts_only_witness :
  (Demo.fresh_world 0).(store).(db_ok) = true /\
  (snd (Resolve (Demo.config 0) "C.x" (DeleteSubject "C.x" (Demo.fresh_world 0))))
    .(store).(reads) = 1%nat.
Proof.
  split; [reflexivity|].
  destruct (DeleteSubject_evicts_only Demo.PublicKey Demo.PemToPublicKey
              Demo.ClientPathKey (Demo.config 0) "C.x" (Demo.fresh_world 0))
    as (_ & _ & _ & _ & _ & H).
  exact (H eq_refl).
Defined.

Lemma ClientDeleteCallback_spec_witness :
  Dict_Get [("ClientId", VString "C.abcd")] "ClientId" = Some (VString "C.abcd") /\
  snd (ClientDeleteCallback [("ClientId", VString "C.abcd")] (Demo.fresh_world 0)) =
  DeleteSubject "C.abcd" (Demo.fresh_world 0).
Proof.
  split; [reflexivity|].
  apply (proj1 (proj2 (ClientDeleteCallback_spec [("ClientId", VString "C.abcd")]
                         (Demo.fresh_world 0)))).
  reflexivity.
Defined.

Lemma AddCertificateRequest_outcome_witness :
  Demo.ParseX509CSRFromPemStr "csr:abcd" = Some (mk_csr (RSAPublicKey "abcd") "C.abcd") /\
  snd (fst (Enroll (Demo.config 0) "csr:abcd" (Demo.fresh_world 0))) = None.
Proof.
  split; [reflexivity|].
  pose proof (AddCertificateRequest_outcome Demo.PublicKey Demo.PublicKeyToPem
                Demo.ClientIDFromPublicKey Demo.ClientIdFromConfigObj Demo.ClientPathKey
                Demo.ParseX509CSRFromPemStr (Demo.config 0) "csr:abcd"
                (Demo.fresh_world 0)) as H.
  destruct (Enroll (Demo.config 0) "csr:abcd" (Demo.fresh_world 0)) as [[cid err] w'].
  simpl. apply (proj2 (proj1 H)).
  exists (mk_csr (RSAPublicKey "abcd") "C.abcd"), "abcd".
  split; [reflexivity|]. split; [reflexivity|]. split; reflexivity.
Defined.

Lemma SetPublicKey_failure_effect_witness :
  Enroll (Demo.config 0) "csr:abcd"
    (mk_world (NewServerPublicKeyResolver (Demo.config 0)) (mk_store true true false ∅ 0) 0)
  = (("", Some ErrSetSubject),
     snd (Bind (Demo.config 0) "C.abcd" "abcd"
            (mk_world (NewServerPublicKeyResolver (Demo.config 0))
               (mk_store true true false ∅ 0) 0))).
Proof.
  apply (proj2 (SetPublicKey_failure_effect Demo.PublicKey Demo.PublicKeyToPem
                  Demo.ClientIDFromPublicKey Demo.ClientIdFromConfigObj Demo.ClientPathKey
                  Demo.ParseX509CSRFromPemStr)
           (Demo.config 0) "csr:abcd" _ _ (mk_csr (RSAPublicKey "abcd") "C.abcd") "abcd");
    reflexivity.
Defined.

Lemma AddCertificateRequest_returns_storage_key_witness :
  snd (fst (Enroll (Demo.config 0) "csr:abcd" (Demo.fresh_world 0))) = None /\
  exists k,
    (snd (Enroll (Demo.config 0) "csr:abcd" (Demo.fresh_world 0))).(store).(subjects)
      !! Demo.ClientPathKey (fst (fst (Enroll (Demo.config 0) "csr:abcd" (Demo.fresh_world 0))))
    = Some (mk_record (Demo.PublicKeyToPem k) 0).
Proof.
  split; [reflexivity|].
  pose proof (AddCertificateRequest_returns_storage_key Demo.PublicKey Demo.PublicKeyToPem
                Demo.ClientIDFromPublicKey Demo.ClientIdFromConfigObj Demo.ClientPathKey
                Demo.ParseX509CSRFromPemStr (Demo.config 0) "csr:abcd"
                (Demo.fresh_world 0)) as H.
  destruct (Enroll (Demo.config 0) "csr:abcd" (Demo.fresh_world 0)) as [[cid err] w'] eqn:E.
  simpl.
  assert (Herr : err = None) by (vm_compute in E; injection E as _ <- _; reflexivity).
  destruct (H Herr) as (csr & k & _ & _ & _ & _ & Hk).
  exists k. exact Hk.
Defined.

Lemma GetPublicKey_found_witness :
  let w := mk_world (NewServerPublicKeyResolver (Demo.config 0))
             (mk_store true true true {["/clients/C.abcd/key" := mk_record "PEM:abcd" 0]} 0) 0 in
  fst (Resolve (Demo.config 0) "C.abcd" w) = Some "abcd" /\
  exists r, w.(store).(subjects) !! "/clients/C.abcd/key" = Some r /\
            Demo.PemToPublicKey r.(Pem) = Some "abcd".
Proof.
  intros w. split; [reflexivity|].
  destruct (GetPublicKey_found Demo.PublicKey Demo.PemToPublicKey Demo.ClientPathKey
              (Demo.config 0) "C.abcd" w "abcd" eq_refl) as (_ & _ & _ & H & _).
  exact H.
Defined.

Lemma GetPublicKey_after_expiry_witness :
  let c := NewServerPublicKeyResolver (Demo.config 0) in
  0 < TTLCache.ttl c /\ 0 + TTLCache.ttl c < 11 * Second /\
  (snd (Resolve (Demo.config 0) "C.x"
          (mk_world (TTLCache.Set_ "C.x" 0 c) Demo.empty_store (11 * Second))))
    .(store).(reads) = 1%nat.
Proof.
  intros c. split; [reflexivity|]. split; [reflexivity|].
  apply (GetPublicKey_after_expiry Demo.PublicKey Demo.PemToPublicKey Demo.ClientPathKey
           (Demo.config 0) "C.x" c Demo.empty_store 0 (11 * Second));
    reflexivity.
Defined.

Lemma GetPublicKey_hit_no_extension_witness :
  let w1 := snd (Resolve (Demo.config 5) "C.x" (Demo.fresh_world 5)) in
  let w2 := mk_world w1.(negative_lru) w1.(store) (3 * Second) in
  TTLCache.skip_ttl_extension (NewServerPublicKeyResolver (Demo.config 5)) = true /\
  Resolve (Demo.config 5) "C.x" w2 = (None, w2).
Proof.
  intros w1 w2.
  destruct (GetPublicKey_hit_no_extension Demo.PublicKey Demo.PemToPublicKey
              Demo.ClientPathKey) as [H1 H2].
  split.
  - apply H1. right. exists (mk_defaults 5). split; [reflexivity|]. simpl. lia.
  - apply H2; reflexivity.
Defined.

Lemma negative_entries_never_expire_witness :
  let c := NewServerPublicKeyResolver (Demo.config (-1)) in
  TTLCache.ttl c = 0 /\
  fst (Resolve (Demo.config (-1)) "C.x"
         (mk_world (TTLCache.Set_ "C.x" 0 c) Demo.empty_store (10 ^ 15))) = None.
Proof.
  intros c.
  destruct (negative_entries_never_expire Demo.PublicKey Demo.PemToPublicKey
              Demo.ClientPathKey) as [H1 H2].
  split.
  - apply (H1 (Demo.config (-1)) (mk_defaults (-1))); [reflexivity|simpl; lia].
  - apply (H2 (Demo.config (-1)) "C.x" c Demo.empty_store 0 (10 ^ 15)).
    exact (Z.le_refl 0).
Defined.

Lemma SetPublicKey_frame_witness :
  fst (Bind (Demo.config 0) "C.abcd" "abcd" (Demo.fresh_world 0)) = None /\
  (snd (Bind (Demo.config 0) "C.abcd" "abcd" (Demo.fresh_world 0))).(store).(subjects)
    !! "/clients/C.other/key" = (Demo.fresh_world 0).(store).(subjects) !! "/clients/C.other/key".
Proof.
  split; [reflexivity|].
  destruct (SetPublicKey_frame Demo.PublicKey Demo.PublicKeyToPem Demo.ClientPathKey
              (Demo.config 0) "C.abcd" "abcd" (Demo.fresh_world 0)
              (snd (Bind (Demo.config 0) "C.abcd" "abcd" (Demo.fresh_world 0))) eq_refl)
    as (_ & H & _).
  apply H. intros Heq. vm_compute in Heq. discriminate Heq.
Defined.

Lemma AddCertificateRequest_rejection_no_effect_witness :
  snd (fst (Enroll (Demo.config 0) "csr:forged" (Demo.fresh_world 0))) = Some ErrInvalidCSR /\
  snd (Enroll (Demo.config 0) "csr:forged" (Demo.fresh_world 0)) = Demo.fresh_world 0.
Proof.
  split; [reflexivity|].
  exact (AddCertificateRequest_rejection_no_effect Demo.PublicKey Demo.PublicKeyToPem
           Demo.ClientIDFromPublicKey Demo.ClientIdFromConfigObj Demo.ClientPathKey
           Demo.ParseX509CSRFromPemStr (Demo.config 0) "csr:forged" (Demo.fresh_world 0)
           (or_intror (or_intror eq_refl))).
Defined.

Lemma AddCertificateRequest_then_GetPublicKey_witness :
  (Demo.fresh_world 0).(store).(read_ok) = true /\
  exists csr k,
    Demo.ParseX509CSRFromPemStr "csr:abcd" = Some csr /\ csr.(CsrKey) = RSAPublicKey k /\
    fst (Resolve (Demo.config 0) "C.abcd"
           (mk_world (snd (Enroll (Demo.config 0) "csr:abcd" (Demo.fresh_world 0))).(negative_lru)
              (snd (Enroll (Demo.config 0) "csr:abcd" (Demo.fresh_world 0))).(store) 7))
    = Some k.
Proof.
  split; [reflexivity|].
  exact (AddCertificateRequest_then_GetPublicKey Demo.PublicKey Demo.PublicKeyToPem
           Demo.PemToPublicKey Demo.ClientIDFromPublicKey Demo.ClientIdFromConfigObj
           Demo.ClientPathKey Demo.ParseX509CSRFromPemStr Demo_pem_roundtrip
           (Demo.config 0) "csr:abcd" (Demo.fresh_world 0) 7 eq_refl eq_refl).
Defined.

Lemma NewServerPublicKeyResolver_ttl_witness :
  Demo.config 5 = mk_config (Some (mk_defaults 5)) "" /\
  TTLCache.ttl (NewServerPublicKeyResolver (Demo.config 5)) = 5 * Second.
Proof.
  split; [reflexivity|].
  apply (proj1 (proj2 (NewServerPublicKeyResolver_ttl (Demo.config 5))) (mk_defaults 5));
    [reflexivity | simpl; lia | simpl; unfold Second; lia].
Defined.

Lemma Match_outcome_witness :
  let self := SigmaDemo.detector SigmaDemo.demo_searches SigmaDemo.demo_conditions (Some tt) in
  SigmaDemo.Match self SigmaDemo.process_event =
    inl (Sigma.mk_result _ true ∅ [] [SigmaDemo.process_event]).
Proof.
  intros self.
  etransitivity;
    [exact (SigmaFacts.Match_outcome SigmaDemo.evaluateSearch
              SigmaDemo.evaluateSearchExpression SigmaDemo.Correlator_Match self
              SigmaDemo.process_event
              (<["cmd" := false]> (<["sel" := true]> ∅)) eq_refl)|].
  reflexivity.
Defined.

Lemma Match_error_sources_witness :
  let self := SigmaDemo.detector [("sel", "Image"); ("bad", "")] [] None in
  SigmaDemo.Match self SigmaDemo.process_event =
    inr (Sigma.ErrEvaluatingSearch _ _ "bad" "empty field name") /\
  exists l1 search l2,
    [("sel", "Image"); ("bad", "")] = l1 ++ ("bad", search) :: l2.
Proof.
  intros self. split; [reflexivity|].
  destruct (SigmaFacts.Match_error_sources SigmaDemo.evaluateSearch
              SigmaDemo.evaluateSearchExpression SigmaDemo.Correlator_Match self
              SigmaDemo.process_event _ eq_refl)
    as [(l1 & i & s & l2 & er & Hss & _ & _ & He)|(c & Hc & _)]; [|discriminate Hc].
  injection He as Hi _. subst i. exists l1, s, l2. exact Hss.
Defined.

Lemma Match_search_error_witness :
  SigmaDemo.Match (SigmaDemo.detector [("sel", "Image"); ("bad", ""); ("cmd", "")] [] None)
    SigmaDemo.process_event =
  inr (Sigma.ErrEvaluatingSearch _ _ "bad" "empty field name").
Proof.
  apply (SigmaFacts.Match_search_error SigmaDemo.evaluateSearch
           SigmaDemo.evaluateSearchExpression SigmaDemo.Correlator_Match _
           SigmaDemo.process_event [("sel", "Image")] [("cmd", "")] "bad" ""
           "empty field name");
    [reflexivity | repeat constructor; eexists; reflexivity | reflexivity].
Defined.

Lemma Match_search_results_witness :
  NoDup (SigmaDemo.demo_searches.*1) /\
  (<["cmd" := false]> (<["sel" := true]> ∅) : gmap string bool) !! "cmd" = Some false.
Proof.
  assert (Hnd : NoDup (SigmaDemo.demo_searches.*1)).
  { apply NoDup_cons; split; [|apply NoDup_singleton].
    rewrite list_elem_of_singleton. discriminate. }
  split; [exact Hnd|].
  apply (proj2 (SigmaFacts.Match_search_results (CorrelationError := string)
                  SigmaDemo.evaluateSearch SigmaDemo.process_event SigmaDemo.demo_searches)
           Hnd _ eq_refl "cmd" false).
  exists "CommandLine". split; [right; left; reflexivity|reflexivity].
Defined.

Lemma Match_aggregations_never_match_witness :
  SigmaDemo.Match (SigmaDemo.detector SigmaDemo.demo_searches
                     [Sigma.mk_condition _ _ "sel" (Some tt)] (Some tt))
    SigmaDemo.process_event =
  inl (Sigma.mk_result _ false (<["cmd" := false]> (<["sel" := true]> ∅)) [false] []).
Proof.
  assert (Ha : Forall (fun c : Sigma.Condition string unit => Sigma.CondAggregation _ _ c <> None)
                 [Sigma.mk_condition _ _ "sel" (Some tt)]).
  { repeat constructor. discriminate. }
  exact (SigmaFacts.Match_aggregations_never_match SigmaDemo.evaluateSearch
           SigmaDemo.evaluateSearchExpression SigmaDemo.Correlator_Match
           (SigmaDemo.detector SigmaDemo.demo_searches
              [Sigma.mk_condition _ _ "sel" (Some tt)] (Some tt))
           SigmaDemo.process_event (<["cmd" := false]> (<["sel" := true]> ∅)) eq_refl Ha).
Defined.

Lemma NewVQLRuleEvaluator_plain_witness :
  let self := Sigma.NewVQLRuleEvaluator _ _ _ SigmaDemo.Lambda unit nat
                (SigmaDemo.rule SigmaDemo.demo_searches SigmaDemo.demo_conditions) [] in
  SigmaDemo.Enrich self SigmaDemo.process_event = SigmaDemo.process_event /\
  exists r, SigmaDemo.Match self SigmaDemo.process_event = inl r /\
            Sigma.CorrelationHits _ r = [].
Proof.
  intros self.
  destruct (SigmaFacts.NewVQLRuleEvaluator_plain SigmaDemo.evaluateSearch
              SigmaDemo.evaluateSearchExpression SigmaDemo.Correlator_Match
              SigmaDemo.Event_Copy SigmaDemo.Event_Set SigmaDemo.Lambda_Reduce
              SigmaDemo.GetMembers SigmaDemo.Associative
              (SigmaDemo.rule SigmaDemo.demo_searches SigmaDemo.demo_conditions) [])
    as (H1 & H2 & _).
  split; [apply H1|].
  eexists. split; [reflexivity|]. apply (H2 SigmaDemo.process_event). reflexivity.
Defined.

Lemma MaybeEnrichWithVQL_fields_witness :
  SigmaDemo.Event_Get (SigmaDemo.Enrich SigmaDemo.enricher SigmaDemo.process_event) "Image"
    = Some 2%nat.
Proof.
  pose proof (SigmaFacts.MaybeEnrichWithVQL_fields SigmaDemo.Event_Copy
                SigmaDemo.Event_Set SigmaDemo.Lambda_Reduce SigmaDemo.GetMembers
                SigmaDemo.Associative SigmaDemo.Event_Get SigmaDemo_Event_Set_eq
                SigmaDemo_Event_Set_ne SigmaDemo.enricher
                (fun _ => <["Image" := 2%nat]> (<["score" := 7%nat]> ∅))
                SigmaDemo.process_event "Image" eq_refl) as H.
  cbv zeta in H. rewrite H. vm_compute. reflexivity.
Defined.
